(** * terraform-provider-pocinfobipemails: the email-template resource

    A shallow embedding of the provider's HTML normaliser, its
    diff-suppression plan modifier, the resource lifecycle handlers
    (Create / Read / Update / Delete) and the provider configuration,
    together with the properties stated about them.

    Go strings are modelled as sequences of runes (Unicode code points):
    [strings.TrimSpace], [strings.Fields] and the regexp engine all decode
    the string rune by rune, and Terraform only hands valid UTF-8 text to a
    provider. *)

From Stdlib Require Import ZArith String Ascii DecimalString DecimalPos DecimalZ Bool Lia Relations List.
Import ListNotations.
Open Scope Z_scope.

(** ** Go strings *)

Definition rune := Z.
Definition gostring := list rune.

Definition rune_of_ascii (a : ascii) : rune := Z.of_N (N_of_ascii a).

(** A string literal of the source, read as runes (ASCII literals only). *)
Definition lit (s : string) : gostring := map rune_of_ascii (list_ascii_of_string s).

Definition TAB : rune := 9.
Definition LF : rune := 10.
Definition CR : rune := 13.
Definition SP : rune := 32.
Definition LT : rune := 60.
Definition GT : rune := 62.

Definition gostring_eqb (a b : gostring) : bool :=
  if list_eq_dec Z.eq_dec a b then true else false.

(** [unicode.IsSpace]: the Latin-1 spaces are listed one by one, the others
    come from the White_Space table. *)
Definition IsSpace (r : rune) : bool :=
  if (0 <=? r) && (r <=? 255) then
    (r =? 9) || (r =? 10) || (r =? 11) || (r =? 12) || (r =? 13)
    || (r =? 32) || (r =? 133) || (r =? 160)
  else
    (r =? 5760) || ((8192 <=? r) && (r <=? 8202)) || (r =? 8232)
    || (r =? 8233) || (r =? 8239) || (r =? 8287) || (r =? 12288).

(** The regexp class [\s] of Go's RE2 syntax: tab, newline, form feed,
    carriage return and space. *)
Definition re_space (r : rune) : bool :=
  (r =? 9) || (r =? 10) || (r =? 12) || (r =? 13) || (r =? 32).

(** [strings.ReplaceAll(s, "\r\n", "\n")]: left to right, non-overlapping. *)
Fixpoint ReplaceAll_CRLF (s : gostring) : gostring :=
  match s with
  | [] => []
  | c :: t =>
      match t with
      | d :: t' =>
          if (c =? CR) && (d =? LF) then LF :: ReplaceAll_CRLF t'
          else c :: ReplaceAll_CRLF t
      | [] => [c]
      end
  end.

Fixpoint TrimLeftSpace (s : gostring) : gostring :=
  match s with
  | [] => []
  | c :: t => if IsSpace c then TrimLeftSpace t else s
  end.

Definition TrimRightSpace (s : gostring) : gostring :=
  rev (TrimLeftSpace (rev s)).

(** [strings.TrimSpace]. *)
Definition TrimSpace (s : gostring) : gostring :=
  TrimRightSpace (TrimLeftSpace s).

(** [strings.Fields]: one scan of the string; [cur] is the field being
    read, closed by the next white space rune or by the end of the
    string.  Empty fields are never produced. *)
Definition close_field (cur : gostring) (rest : list gostring) : list gostring :=
  match cur with
  | [] => rest
  | _ :: _ => cur :: rest
  end.

Fixpoint fields_go (cur : gostring) (s : gostring) : list gostring :=
  match s with
  | [] => close_field cur []
  | c :: t =>
      if IsSpace c then close_field cur (fields_go [] t)
      else fields_go (cur ++ [c]) t
  end.

Definition Fields (s : gostring) : list gostring := fields_go [] s.

(** [strings.Join]. *)
Fixpoint Join (elems : list gostring) (sep : gostring) : gostring :=
  match elems with
  | [] => []
  | a :: rest =>
      match rest with
      | [] => a
      | _ :: _ => a ++ sep ++ Join rest sep
      end
  end.

(** ** The regular expression [>[\s]*<]

    [ws_then_lt s] is the length of the prefix of [s] matched by [[\s]*<];
    the star is greedy, and since [<] is not in [\s] the match is unique. *)
Fixpoint ws_then_lt (s : gostring) : option nat :=
  match s with
  | [] => None
  | c :: t =>
      if c =? LT then Some 1%nat
      else if re_space c then option_map S (ws_then_lt t)
      else None
  end.

(** Length of the match of the whole pattern at the start of [s]. *)
Definition match_gap (s : gostring) : option nat :=
  match s with
  | [] => None
  | c :: t => if c =? GT then option_map S (ws_then_lt t) else None
  end.

(** [re.ReplaceAllString(s, "><")]: at each position the leftmost match is
    replaced and the scan resumes after it; [skip] counts the runes of the
    current match still to be passed over. *)
Fixpoint replace_go (skip : nat) (s : gostring) : gostring :=
  match s with
  | [] => []
  | c :: t =>
      match skip with
      | S k => replace_go k t
      | O =>
          match match_gap s with
          | Some n => GT :: LT :: replace_go (Nat.pred n) t
          | None => c :: replace_go O t
          end
      end
  end.

Definition ReplaceAllString_gap (s : gostring) : gostring := replace_go 0 s.

(** ** normalizeHTML (email_template_resource.go) *)

Definition normalizeHTML (raw : gostring) : gostring :=
  let s := ReplaceAll_CRLF raw in
  let s := TrimSpace s in
  let s := Join (Fields s) (lit " ") in
  let s := ReplaceAllString_gap s in
  s.

(** ** The framework's attribute values ([types.String], [types.Bool]) *)

Inductive TString : Type :=
| StringNull
| StringUnknown
| StringValue (s : gostring).

Definition IsNull (v : TString) : bool :=
  match v with StringNull => true | _ => false end.

Definition IsUnknown (v : TString) : bool :=
  match v with StringUnknown => true | _ => false end.

(** [ValueString] is the empty string for a null or unknown value. *)
Definition ValueString (v : TString) : gostring :=
  match v with StringValue s => s | _ => [] end.

Inductive TBool : Type :=
| BoolNull
| BoolUnknown
| BoolValue (b : bool).

(** ** Diagnostics *)

Record Diagnostic : Type := mkDiag {
  diag_attribute : option gostring;   (* [path.Root(..)] of an attribute error *)
  diag_summary : gostring;
  diag_detail : gostring
}.

Definition Diagnostics := list Diagnostic.

(** Every diagnostic the provider adds is an error. *)
Definition HasError (d : Diagnostics) : bool :=
  match d with [] => false | _ :: _ => true end.

Definition AddError (d : Diagnostics) (summary detail : gostring) : Diagnostics :=
  d ++ [mkDiag None summary detail].

Definition AddAttributeError (d : Diagnostics) (attr summary detail : gostring) : Diagnostics :=
  d ++ [mkDiag (Some attr) summary detail].

(** ** The diff-suppression plan modifier (htmlWhitespaceInsensitiveModifier) *)

Module Modifier.

(** The closure [normalize] declared inside [PlanModifyString]. *)
Definition normalize (raw : gostring) : gostring :=
  let s := ReplaceAll_CRLF raw in
  let s := TrimSpace s in
  let s := Join (Fields s) (lit " ") in
  let s := ReplaceAllString_gap s in
  s.

Record StringRequest : Type := {
  StateValue : TString;
  PlanValue : TString
}.

(** The response starts out holding the planned value of the request;
    the result is the response's [PlanValue] when the method returns. *)
Definition PlanModifyString (req : StringRequest) : TString :=
  if IsNull (StateValue req) || IsNull (PlanValue req) then PlanValue req
  else
    let oldVal := normalize (ValueString (StateValue req)) in
    let newVal := normalize (ValueString (PlanValue req)) in
    if gostring_eqb oldVal newVal then StateValue req else PlanValue req.

End Modifier.

(** ** Integers and text: [fmt.Sprintf("%d", ..)] and [fmt.Sscanf(.., "%d", ..)] *)

Definition min_int64 : Z := - 2 ^ 63.
Definition max_int64 : Z := 2 ^ 63 - 1.

Definition Sprintf_d (n : Z) : gostring :=
  lit (NilZero.string_of_int (Z.to_int n)).

Definition is_digit (r : rune) : bool := (48 <=? r) && (r <=? 57).

(** The scanner method [SkipSpace] as [Sscanf] runs it: white space is passed over, but a
    newline is an error ("unexpected newline").  [None] is the error. *)
Fixpoint SkipSpace (s : gostring) : option gostring :=
  match s with
  | [] => Some []
  | c :: t =>
      if c =? LF then None
      else if IsSpace c then SkipSpace t
      else Some s
  end.

(** [s.accept(sign)]: at most one sign is consumed. *)
Definition accept_sign (s : gostring) : bool * gostring :=
  match s with
  | c :: t =>
      if c =? 45 then (true, t)
      else if c =? 43 then (false, t)
      else (false, s)
  | [] => (false, [])
  end.

Fixpoint scan_digits (s : gostring) : gostring :=
  match s with
  | c :: t => if is_digit c then c :: scan_digits t else []
  | [] => []
  end.

Definition digits_value (ds : gostring) : Z :=
  fold_left (fun acc d => acc * 10 + (d - 48)) ds 0.

(** The verb [%d] scanning an [int64]: [scanInt] skips space, accepts a
    sign, needs at least one digit ("expected integer" otherwise) and
    hands the token to [strconv.ParseInt], which fails out of range.
    [None] is a scan error; the operand is then left untouched. *)
Definition scanInt (s : gostring) : option Z :=
  match SkipSpace s with
  | None => None
  | Some s1 =>
      let '(neg, s2) := accept_sign s1 in
      match scan_digits s2 with
      | [] => None
      | ds =>
          let v := if neg then - digits_value ds else digits_value ds in
          if (min_int64 <=? v) && (v <=? max_int64) then Some v else None
      end
  end.

(** [var idInt int64; fmt.Sscanf(id, "%d", &idInt)], the error discarded. *)
Definition parse_id (id : gostring) : Z :=
  match scanInt id with
  | Some v => v
  | None => 0
  end.

(** "Begins with a decimal integer", word for word: the first rune of
    the text is a decimal digit. *)
Definition begins_with_digit (s : gostring) : bool :=
  match s with
  | c :: _ => is_digit c
  | [] => false
  end.

(** The texts in which [%d] finds a token: white space without a
    newline, then at most one sign, then a decimal digit. *)
Fixpoint has_integer_token (s : gostring) : bool :=
  match s with
  | [] => false
  | c :: t =>
      if c =? LF then false
      else if IsSpace c then has_integer_token t
      else if (c =? 45) || (c =? 43) then
        match t with d :: _ => is_digit d | [] => false end
      else is_digit c
  end.

(** ** The resource model and the remote service *)

Record EmailTemplateResourceModel : Type := mkModel {
  ID : TString;
  Name : TString;
  From : TString;
  ReplyTo : TString;
  Subject : TString;
  Preheader : TString;
  Html : TString;
  IsHtmlEditable : TBool;
  LandingPage : TString;
  ImagePreviewUrl : TString;
  CreatedAt : TString;
  UpdatedAt : TString
}.

(** The template as the client library decodes it from a response body. *)
Record EmailTemplate : Type := mkTemplate {
  et_ID : Z;
  et_Name : gostring;
  et_From : gostring;
  et_ReplyTo : gostring;
  et_Subject : gostring;
  et_Preheader : gostring;
  et_HTML : gostring;
  et_IsHTMLEditable : bool;
  et_LandingPageID : gostring;
  et_ImagePreviewURL : gostring;
  et_CreatedAt : gostring;
  et_UpdatedAt : gostring
}.

Record HttpResponse : Type := mkHttp { StatusCode : Z }.

(** The fields a create or update request carries. *)
Record TemplateRequest : Type := mkRequest {
  rq_Name : gostring;
  rq_From : gostring;
  rq_ReplyTo : gostring;
  rq_Subject : gostring;
  rq_Preheader : gostring;
  rq_Html : gostring;
  rq_LandingPage : gostring
}.

(** What [Execute()] returns: the decoded template (a pointer, [None] is
    nil), the HTTP response (nil on a transport error) and the error. *)
Record TemplateReply : Type := mkReply {
  reply_template : option EmailTemplate;
  reply_http : option HttpResponse;
  reply_err : option gostring
}.

Record RemoveReply : Type := mkRemoved {
  removed_http : option HttpResponse;
  removed_err : option gostring
}.

(** The remote service, as seen through the client handle. *)
Record EmailAPI : Type := mkAPI {
  CreateEmailTemplate : TemplateRequest -> TemplateReply;
  GetEmailTemplate : Z -> TemplateReply;
  UpdateEmailTemplate : Z -> TemplateRequest -> TemplateReply;
  RemoveEmailTemplate : Z -> RemoveReply
}.

(** A handler either returns or dereferences a nil pointer. *)
Inductive Outcome (A : Type) : Type :=
| Returned (a : A)
| Panicked.

Arguments Returned {A} a.
Arguments Panicked {A}.

(** The response of a lifecycle handler: the diagnostics and the state the
    framework keeps afterwards ([None]: no state, the resource is absent). *)
Record Response : Type := mkResponse {
  resp_Diagnostics : Diagnostics;
  resp_State : option EmailTemplateResourceModel
}.

Definition request_of (plan : EmailTemplateResourceModel) : TemplateRequest :=
  {| rq_Name := ValueString (Name plan);
     rq_From := ValueString (From plan);
     rq_ReplyTo := ValueString (ReplyTo plan);
     rq_Subject := ValueString (Subject plan);
     rq_Preheader := ValueString (Preheader plan);
     rq_Html := ValueString (Html plan);
     rq_LandingPage := ValueString (LandingPage plan) |}.

Section Lifecycle.

(** The client handle held by the resource. *)
Variable api : EmailAPI.

(** [now n] is the text of the [n]-th [time.Now().Format(time.RFC850)] of
    a handler's run. *)
Variable now : nat -> gostring.

(** [strconv.Quote], used by [types.String.String()]. *)
Variable Quote : gostring -> gostring.

Definition TString_String (v : TString) : gostring :=
  match v with
  | StringNull => lit "<null>"
  | StringUnknown => lit "<unknown>"
  | StringValue s => Quote s
  end.

(** [Create]: the response starts with no state.  After the error check
    there is no return, so the mapping of the reply runs in every case. *)
Definition Create (plan : EmailTemplateResourceModel) : Outcome Response :=
  let reply := CreateEmailTemplate api (request_of plan) in
  let diags :=
    match reply_err reply with
    | Some err =>
        AddError [] (lit "Error Creating Email Template")
          (lit "An error was encountered while creating the email template: " ++ err)
    | None => []
    end in
  match reply_template reply with
  | None => Panicked
  | Some emailTemplate =>
      let plan :=
        {| ID := StringValue (Sprintf_d (et_ID emailTemplate));
           Name := StringValue (et_Name emailTemplate);
           From := StringValue (et_From emailTemplate);
           ReplyTo := StringValue (et_ReplyTo emailTemplate);
           Subject := StringValue (et_Subject emailTemplate);
           Preheader := StringValue (et_Preheader emailTemplate);
           Html := StringValue (normalizeHTML (et_HTML emailTemplate));
           IsHtmlEditable := BoolValue (et_IsHTMLEditable emailTemplate);
           LandingPage := StringValue (et_LandingPageID emailTemplate);
           ImagePreviewUrl := StringValue (et_ImagePreviewURL emailTemplate);
           CreatedAt := StringValue (now 0%nat);
           UpdatedAt := StringValue (now 1%nat) |} in
      Returned {| resp_Diagnostics := diags; resp_State := Some plan |}
  end.

(** [Read]: the response starts with the state of the request. *)
Definition Read (state : EmailTemplateResourceModel) : Outcome Response :=
  let idInt := parse_id (ValueString (ID state)) in
  let reply := GetEmailTemplate api idInt in
  match reply_err reply with
  | Some err =>
      Returned
        {| resp_Diagnostics :=
             AddError [] (lit "Error Reading HashiCups Order")
               (lit "Could not read HashiCups order ID " ++ TString_String (ID state)
                  ++ lit ": " ++ err);
           resp_State := Some state |}
  | None =>
      match reply_template reply with
      | None => Panicked
      | Some emailTemplate =>
          let state :=
            {| ID := StringValue (Sprintf_d (et_ID emailTemplate));
               Name := StringValue (et_Name emailTemplate);
               From := StringValue (et_From emailTemplate);
               ReplyTo := StringValue (et_ReplyTo emailTemplate);
               Subject := StringValue (et_Subject emailTemplate);
               Preheader := StringValue (et_Preheader emailTemplate);
               Html := StringValue (normalizeHTML (et_HTML emailTemplate));
               IsHtmlEditable := BoolValue (et_IsHTMLEditable emailTemplate);
               LandingPage := StringValue (et_LandingPageID emailTemplate);
               ImagePreviewUrl := StringValue (et_ImagePreviewURL emailTemplate);
               CreatedAt := StringValue (et_CreatedAt emailTemplate);
               UpdatedAt := StringValue (et_UpdatedAt emailTemplate) |} in
          Returned {| resp_Diagnostics := []; resp_State := Some state |}
      end
  end.

(** [Update]: the response starts with the prior state. *)
Definition Update (plan state : EmailTemplateResourceModel) : Outcome Response :=
  let idInt := parse_id (ValueString (ID state)) in
  let reply := UpdateEmailTemplate api idInt (request_of plan) in
  match reply_err reply with
  | Some err =>
      Returned
        {| resp_Diagnostics :=
             AddError [] (lit "Error Updating Email Template")
               (lit "An error was encountered while updating the email template: " ++ err);
           resp_State := Some state |}
  | None =>
      match reply_template reply with
      | None => Panicked
      | Some emailTemplate =>
          let created_now := gostring_eqb (ValueString (CreatedAt state)) [] in
          let plan :=
            {| ID := StringValue (Sprintf_d (et_ID emailTemplate));
               Name := StringValue (et_Name emailTemplate);
               From := StringValue (et_From emailTemplate);
               ReplyTo := StringValue (et_ReplyTo emailTemplate);
               Subject := StringValue (et_Subject emailTemplate);
               Preheader := StringValue (et_Preheader emailTemplate);
               Html := StringValue (normalizeHTML (et_HTML emailTemplate));
               IsHtmlEditable := BoolValue (et_IsHTMLEditable emailTemplate);
               LandingPage := StringValue (et_LandingPageID emailTemplate);
               ImagePreviewUrl := StringValue (et_ImagePreviewURL emailTemplate);
               CreatedAt :=
                 if created_now then StringValue (now 0%nat) else CreatedAt state;
               UpdatedAt :=
                 StringValue (now (if created_now then 1%nat else 0%nat)) |} in
          Returned {| resp_Diagnostics := []; resp_State := Some plan |}
      end
  end.

(** [Delete]: the response starts with the prior state; [RemoveResource]
    empties it. *)
Definition Delete (data : EmailTemplateResourceModel) : Outcome Response :=
  let idInt := parse_id (ValueString (ID data)) in
  let reply := RemoveEmailTemplate api idInt in
  match removed_err reply with
  | Some err =>
      let gone :=
        match removed_http reply with
        | Some httpResponse => StatusCode httpResponse =? 404
        | None => false
        end in
      if gone then Returned {| resp_Diagnostics := []; resp_State := None |}
      else
        Returned
          {| resp_Diagnostics :=
               AddError [] (lit "Error Deleting Email Template")
                 (lit "An error was encountered while deleting the email template: " ++ err);
             resp_State := Some data |}
  | None => Returned {| resp_Diagnostics := []; resp_State := None |}
  end.

End Lifecycle.

(** ** Provider configuration (provider.go) *)

Record pocInfobipEmailsProviderModel : Type := mkConfig {
  BaseUrl : TString;
  ApiKey : TString
}.

(** The two environment variables as [os.Getenv] reads them: the empty
    string when the variable is not set. *)
Record Environ : Type := mkEnviron {
  POCINFOBIPEMAILS_BASE_URL : gostring;
  POCINFOBIPEMAILS_API_KEY : gostring
}.

Record providerClient : Type := mkProviderClient {
  client_Host : gostring;
  apiKey : gostring
}.

(** The reply to the verification call [GetAllEmailTemplates]: the error,
    whether the reply and its [Results] are non-nil, and its [%+v] text. *)
Record VerifyReply : Type := mkVerify {
  verify_err : option gostring;
  verify_has_results : bool;
  verify_text : gostring
}.

Record ConfigureResponse : Type := mkConfigureResponse {
  cfg_Diagnostics : Diagnostics;
  ResourceData : option providerClient;
  DataSourceData : option providerClient
}.

(** Lines 115 to 124: the environment first, overridden by a non-null
    configuration value. *)
Definition resolve_base_url (env : Environ) (config : pocInfobipEmailsProviderModel) : gostring :=
  let base_url := POCINFOBIPEMAILS_BASE_URL env in
  if negb (IsNull (BaseUrl config)) then ValueString (BaseUrl config) else base_url.

Definition resolve_api_key (env : Environ) (config : pocInfobipEmailsProviderModel) : gostring :=
  let api_key := POCINFOBIPEMAILS_API_KEY env in
  if negb (IsNull (ApiKey config)) then ValueString (ApiKey config) else api_key.

Definition unknown_base_url_detail : gostring :=
  lit "The provider cannot create the Infobip API client as there is an unknown configuration value for the Infobip API base url. "
  ++ lit "Either target apply the source of the value first, set the value statically in the configuration, or use the POCINFOBIPEMAILS_BASE_URL environment variable.".

Definition unknown_api_key_detail : gostring :=
  lit "The provider cannot create the Infobip API client as there is an unknown configuration value for the Infobip API key. "
  ++ lit "Either target apply the source of the value first, set the value statically in the configuration, or use the POCINFOBIPEMAILS_API_KEY environment variable.".

Definition missing_base_url_detail : gostring :=
  lit "The provider cannot create the Infobip API client as there is a missing or empty value for the Infobip API base url. "
  ++ lit "Set the host value in the configuration or use the POCINFOBIPEMAILS_BASE_URL environment variable. "
  ++ lit "If either is already set, ensure the value is not empty.".

Definition missing_api_key_detail : gostring :=
  lit "The provider cannot create the Infobip API client as there is a missing or empty value for the Infobip API key. "
  ++ lit "Set the api_key value in the configuration or use the POCINFOBIPEMAILS_API_KEY environment variable. "
  ++ lit "If either is already set, ensure the value is not empty.".

Definition failed (d : Diagnostics) : ConfigureResponse :=
  {| cfg_Diagnostics := d; ResourceData := None; DataSourceData := None |}.

(** [Configure] of the provider; [GetAllEmailTemplates host key] is the
    verification call through a client built for [host]. *)
Definition Configure
    (GetAllEmailTemplates : gostring -> gostring -> VerifyReply)
    (env : Environ) (config : pocInfobipEmailsProviderModel) : ConfigureResponse :=
  let d : Diagnostics := [] in
  let d :=
    if IsUnknown (BaseUrl config) then
      AddAttributeError d (lit "base_url") (lit "Unknown Infobip API base url")
        unknown_base_url_detail
    else d in
  let d :=
    if IsUnknown (ApiKey config) then
      AddAttributeError d (lit "api_key") (lit "Unknown Infobip API key")
        unknown_api_key_detail
    else d in
  if HasError d then failed d
  else
    let base_url := resolve_base_url env config in
    let api_key := resolve_api_key env config in
    let d :=
      if gostring_eqb base_url (lit "") then
        AddAttributeError d (lit "base_url") (lit "Missing Infobip API base url")
          missing_base_url_detail
      else d in
    let d :=
      if gostring_eqb api_key (lit "") then
        AddAttributeError d (lit "api_key") (lit "Missing Infobip API key")
          missing_api_key_detail
      else d in
    if HasError d then failed d
    else
      let reply := GetAllEmailTemplates base_url api_key in
      match verify_err reply with
      | Some err => failed (AddError d (lit "Failed to fetch all email templates") err)
      | None =>
          let d :=
            if negb (verify_has_results reply) then
              AddError d (lit "Invalid response")
                (lit "Expected messages, but got: " ++ verify_text reply)
            else d in
          let provData := {| client_Host := base_url; apiKey := api_key |} in
          {| cfg_Diagnostics := d;
             ResourceData := Some provData;
             DataSourceData := Some provData |}
      end.

(** ** The normaliser as the specification words it

    Four steps in order: CRLF to LF, trim, collapse each run of white
    space to one space, delete the white space between a [>] and the
    following [<]. *)
Module Reference.

(** Step 1: every carriage return that a line feed follows is dropped. *)
Fixpoint crlf_to_lf (s : gostring) : gostring :=
  match s with
  | [] => []
  | c :: t =>
      if (c =? CR) && (match t with d :: _ => d =? LF | [] => false end)
      then crlf_to_lf t
      else c :: crlf_to_lf t
  end.

(** Step 2: white space is removed from both ends. *)
Fixpoint drop_leading (s : gostring) : gostring :=
  match s with
  | c :: t => if IsSpace c then drop_leading t else s
  | [] => []
  end.

Fixpoint drop_trailing (s : gostring) : gostring :=
  match s with
  | [] => []
  | c :: t =>
      if forallb IsSpace s then [] else c :: drop_trailing t
  end.

Definition trim (s : gostring) : gostring := drop_trailing (drop_leading s).

(** Step 3: each maximal run of white space becomes one space. *)
Fixpoint collapse_runs (s : gostring) : gostring :=
  match s with
  | [] => []
  | c :: t =>
      if IsSpace c then
        match t with
        | d :: _ => if IsSpace d then collapse_runs t else SP :: collapse_runs t
        | [] => [SP]
        end
      else c :: collapse_runs t
  end.

(** Step 4: [closes_gap s] tells whether the white space at the start of
    [s] is followed by [<]; [delete_gaps in_gap s] drops the white space
    of a gap opened by a [>]. *)
Fixpoint closes_gap (s : gostring) : bool :=
  match s with
  | [] => false
  | c :: t => if IsSpace c then closes_gap t else c =? LT
  end.

Fixpoint delete_gaps (in_gap : bool) (s : gostring) : gostring :=
  match s with
  | [] => []
  | c :: t =>
      if in_gap && IsSpace c then delete_gaps true t
      else c :: delete_gaps ((c =? GT) && closes_gap t) t
  end.

Definition normalize (raw : gostring) : gostring :=
  delete_gaps false (collapse_runs (trim (crlf_to_lf raw))).

End Reference.

(** ** Concrete requests and services used to exercise the statements *)

Definition no_template : EmailTemplate :=
  mkTemplate 0 [] [] [] [] [] [] false [] [] [] [].

Definition welcome_template : EmailTemplate :=
  mkTemplate 7 (lit "Welcome") (lit "noreply@example.com") (lit "support@example.com")
    (lit "Hello") (lit "Hi") (lit "<html> <body>Hi</body> </html>") true (lit "1_2345")
    (lit "https://example.com/p.png") (lit "") (lit "").

Definition welcome_plan : EmailTemplateResourceModel :=
  mkModel StringUnknown (StringValue (lit "Welcome")) (StringValue (lit "noreply@example.com"))
    (StringValue (lit "support@example.com")) (StringValue (lit "Hello"))
    (StringValue (lit "Hi")) (StringValue (lit "<html> <body>Hi</body> </html>"))
    BoolUnknown (StringValue (lit "1_2345")) StringUnknown StringUnknown StringUnknown.

Definition stored_model (id created : gostring) : EmailTemplateResourceModel :=
  mkModel (StringValue id) (StringValue (lit "Welcome")) (StringValue (lit "noreply@example.com"))
    (StringValue (lit "support@example.com")) (StringValue (lit "Hello"))
    (StringValue (lit "Hi")) (StringValue (lit "<html><body>Hi</body></html>"))
    (BoolValue true) (StringValue (lit "1_2345")) (StringValue (lit "https://example.com/p.png"))
    (StringValue created) (StringValue created).

Definition server_error : TemplateReply :=
  mkReply None (Some (mkHttp 500)) (Some (lit "500 Internal Server Error")).

Definition undecodable_body : TemplateReply :=
  mkReply (Some no_template) (Some (mkHttp 200)) (Some (lit "json: cannot unmarshal")).

Definition ok_reply : TemplateReply :=
  mkReply (Some welcome_template) (Some (mkHttp 200)) None.

(** A service answering every template call with [reply] and every
    removal with [removed]. *)
Definition constant_api (reply : TemplateReply) (removed : RemoveReply) : EmailAPI :=
  mkAPI (fun _ => reply) (fun _ => reply) (fun _ _ => reply) (fun _ => removed).

Definition removed_ok : RemoveReply := mkRemoved (Some (mkHttp 204)) None.
Definition removed_404 : RemoveReply := mkRemoved (Some (mkHttp 404)) (Some (lit "404 Not Found")).
Definition removed_500 : RemoveReply := mkRemoved (Some (mkHttp 500)) (Some (lit "500 Internal Server Error")).

Definition wall_clock (n : nat) : gostring :=
  match n with
  | O => lit "Saturday, 31-Oct-26 10:00:00 UTC"
  | _ => lit "Saturday, 31-Oct-26 10:00:01 UTC"
  end.

Definition stored_html : gostring :=
  lit "<html><head></head><body><h2>Welcome</h2></body></html>".

Definition planned_html : gostring :=
  lit "<html>" ++ [LF] ++ lit "  <head></head>" ++ [LF]
  ++ lit "  <body><h2>Welcome</h2></body>" ++ [LF] ++ lit "</html>".

(** ** Auxiliary notions used by the statements *)

Definition missing_base_url : Diagnostic :=
  mkDiag (Some (lit "base_url")) (lit "Missing Infobip API base url") missing_base_url_detail.

Definition missing_api_key : Diagnostic :=
  mkDiag (Some (lit "api_key")) (lit "Missing Infobip API key") missing_api_key_detail.

Definition verify_ok (host key : gostring) : VerifyReply :=
  mkVerify None true (lit "&{Results:[]}").

Definition full_environ : Environ :=
  mkEnviron (lit "https://example.api.infobip.com") (lit "secret").

(** An explicitly empty [base_url] beside a null [api_key]. *)
Definition empty_url_config : pocInfobipEmailsProviderModel :=
  mkConfig (StringValue (lit "")) StringNull.

(** A service that knows only the template with the integer id 0. *)
Definition only_zero_api : EmailAPI :=
  mkAPI (fun _ => server_error)
    (fun id => if id =? 0 then mkReply (Some no_template) (Some (mkHttp 200)) None
               else server_error)
    (fun id _ => if id =? 0 then mkReply (Some no_template) (Some (mkHttp 200)) None
                 else server_error)
    (fun id => if id =? 0 then removed_ok else removed_500).

(** [tidy_after b s]: [s] may follow a rune that was a space iff [b]; the
    only white space is single spaces, none at the end. *)
Fixpoint tidy_after (prev_space : bool) (s : gostring) : bool :=
  match s with
  | [] => negb prev_space
  | c :: t =>
      if c =? SP then negb prev_space && tidy_after true t
      else negb (IsSpace c) && tidy_after false t
  end.

Definition tidy (s : gostring) : bool :=
  match s with
  | [] => true
  | _ :: _ => tidy_after true s
  end.

Definition solid (t : gostring) : bool := forallb (fun c => negb (IsSpace c)) t.

Definition leading_space (s : gostring) : gostring :=
  match s with
  | c :: _ => if IsSpace c then [SP] else []
  | [] => []
  end.

Definition blank (w : gostring) : bool := forallb IsSpace w.

(** The same runes with white space runs of any content at the same
    places, and any white space at the end. *)
Inductive same_runs : gostring -> gostring -> Prop :=
| same_end (w1 w2 : gostring) :
    blank w1 = true -> blank w2 = true -> same_runs w1 w2
| same_rune (c : rune) (a b : gostring) :
    IsSpace c = false -> same_runs a b -> same_runs (c :: a) (c :: b)
| same_run (w1 w2 a b : gostring) :
    w1 <> [] -> w2 <> [] -> blank w1 = true -> blank w2 = true ->
    same_runs a b -> same_runs (w1 ++ a) (w2 ++ b).

(** The three ways two texts may differ: in their white space runs (and
    in white space at either end), in the white space between one [>] and
    the [<] that follows it, in one line ending written CRLF or LF. *)
Inductive differ_only : gostring -> gostring -> Prop :=
| differ_runs (w1 w2 a b : gostring) :
    blank w1 = true -> blank w2 = true -> same_runs a b ->
    differ_only (w1 ++ a) (w2 ++ b)
| differ_gap (p w1 w2 q : gostring) :
    blank w1 = true -> blank w2 = true ->
    differ_only (p ++ GT :: w1 ++ LT :: q) (p ++ GT :: w2 ++ LT :: q)
| differ_line_end (p q : gostring) :
    differ_only (p ++ CR :: LF :: q) (p ++ LF :: q).

(** Any number of such differences, in either direction. *)
Definition insignificant : gostring -> gostring -> Prop :=
  clos_refl_sym_trans gostring differ_only.

(** ** The rest of the resource: Configure and ImportState *)

(** The resource value: the client handle (its host; [None] before the
    provider is configured) and the API key. *)
Record EmailTemplateResource : Type := mkResource {
  infobipClient : option gostring;
  resource_apiKey : gostring
}.

Definition NewEmailTemplateResource : EmailTemplateResource :=
  {| infobipClient := None; resource_apiKey := lit "" |}.

(** [req.ProviderData], an [any]: nil, a [*providerClient] (that pointer
    may itself be nil) or a value of another type, known by its [%T]. *)
Inductive ProviderData : Type :=
| NoProviderData
| ClientData (pd : option providerClient)
| OtherData (type_name : gostring).

(** [Configure] of the resource: the resource afterwards and the
    diagnostics added. *)
Definition ResourceConfigure (r : EmailTemplateResource) (data : ProviderData)
  : Outcome (EmailTemplateResource * Diagnostics) :=
  match data with
  | NoProviderData => Returned (r, [])
  | OtherData type_name =>
      Returned
        (r, AddError [] (lit "Unexpected Resource Configure Type")
              (lit "Expected *providerClient, got: " ++ type_name
                 ++ lit ". Please report this issue to the provider developers."))
  | ClientData None => Panicked
  | ClientData (Some pd) =>
      Returned
        ({| infobipClient := Some (client_Host pd); resource_apiKey := apiKey pd |}, [])
  end.

(** The state that holds the given text as [id] and nothing else. *)
Definition only_id (id : gostring) : EmailTemplateResourceModel :=
  mkModel (StringValue id) StringNull StringNull StringNull StringNull
    StringNull StringNull BoolNull StringNull StringNull StringNull StringNull.

(** [ImportState] is [resource.ImportStatePassthroughID] on the path
    [id]: a non-empty [req.ID] is set as the attribute [id] of the state,
    which holds nothing else; with an empty [req.ID] nothing is set and
    the state stays null. *)
Definition ImportState (id : gostring) : Response :=
  {| resp_Diagnostics := [];
     resp_State := if gostring_eqb id (lit "") then None else Some (only_id id) |}.

(** ** Notions used by the further statements *)

(** The runes of a text that are not white space, in order. *)
Definition text (s : gostring) : gostring :=
  filter (fun c => negb (IsSpace c)) s.

Definition known (v : TString) : bool :=
  match v with StringValue _ => true | _ => false end.

Definition known_bool (v : TBool) : bool :=
  match v with BoolValue _ => true | _ => false end.

(** No attribute of the model is null or unknown. *)
Definition fully_known (m : EmailTemplateResourceModel) : bool :=
  known (ID m) && known (Name m) && known (From m) && known (ReplyTo m)
  && known (Subject m) && known (Preheader m) && known (Html m)
  && known_bool (IsHtmlEditable m) && known (LandingPage m)
  && known (ImagePreviewUrl m) && known (CreatedAt m) && known (UpdatedAt m).

(** The decimal digits of a number, as runes. *)
Definition digits_of (d : Decimal.uint) : gostring :=
  lit (NilEmpty.string_of_uint d).

(** * Properties *)

Lemma gostring_eqb_eq (a b : gostring) : gostring_eqb a b = true <-> a = b.
Proof.
  unfold gostring_eqb. destruct (list_eq_dec Z.eq_dec a b); split; congruence.
Qed.

Lemma gostring_eqb_neq (a b : gostring) : gostring_eqb a b = false <-> a <> b.
Proof.
  unfold gostring_eqb. destruct (list_eq_dec Z.eq_dec a b); split; congruence.
Qed.

(** ** Create *)

(** On a reply carrying an error, [Create] still maps the reply: with a
    nil template it never returns, with a decoded one it stores a state. *)
Lemma Create_after_error (api : EmailAPI) (now : nat -> gostring)
    (plan : EmailTemplateResourceModel) (err : gostring) :
  reply_err (CreateEmailTemplate api (request_of plan)) = Some err ->
  match reply_template (CreateEmailTemplate api (request_of plan)) with
  | None => Create api now plan = Panicked
  | Some t =>
      exists r m, Create api now plan = Returned r
        /\ HasError (resp_Diagnostics r) = true
        /\ resp_State r = Some m
        /\ ID m = StringValue (Sprintf_d (et_ID t))
  end.
Proof.
  intros Herr. unfold Create. rewrite Herr.
  destruct (reply_template (CreateEmailTemplate api (request_of plan))) as [t|].
  - eexists. eexists. split; [reflexivity|]. cbn. repeat split.
  - reflexivity.
Qed.

(** C1, evaluated on the code.  A create request answered with HTTP 500
    (no template decoded) makes [Create] crash on the nil template instead
    of returning its error diagnostic; a reply that carries both an error
    and a template makes [Create] return the error and store a state whose
    [id] is set (here to the text 0). *)
Theorem Create_failure_is_not_clean :
  Create (constant_api server_error removed_ok) wall_clock welcome_plan = Panicked
  /\ exists r m,
       Create (constant_api undecodable_body removed_ok) wall_clock welcome_plan = Returned r
       /\ HasError (resp_Diagnostics r) = true
       /\ resp_State r = Some m
       /\ ID m = StringValue (lit "0").
Proof.
  split; [reflexivity|].
  eexists. eexists. split; [reflexivity|]. cbn. repeat split.
Qed.

(** ** The plan modifier *)

(** C2.  When the stored and the planned value are both non-null and
    normalise to the same text, the planned value becomes the stored one;
    when either is null, the planned value is left as it is. *)
Theorem PlanModifyString_suppresses (req : Modifier.StringRequest) :
  (IsNull (Modifier.StateValue req) = false ->
   IsNull (Modifier.PlanValue req) = false ->
   Modifier.normalize (ValueString (Modifier.StateValue req))
     = Modifier.normalize (ValueString (Modifier.PlanValue req)) ->
   Modifier.PlanModifyString req = Modifier.StateValue req)
  /\ (IsNull (Modifier.StateValue req) = true \/ IsNull (Modifier.PlanValue req) = true ->
      Modifier.PlanModifyString req = Modifier.PlanValue req).
Proof.
  unfold Modifier.PlanModifyString. split.
  - intros Hs Hp Heq. rewrite Hs, Hp. cbn [orb].
    apply gostring_eqb_eq in Heq. rewrite Heq. reflexivity.
  - intros [H | H]; rewrite H; [reflexivity|].
    rewrite orb_true_r. reflexivity.
Qed.

Lemma PlanModifyString_suppresses_witness :
  Modifier.PlanModifyString
    {| Modifier.StateValue := StringValue stored_html;
       Modifier.PlanValue := StringValue planned_html |}
  = StringValue stored_html
  /\ Modifier.PlanModifyString
       {| Modifier.StateValue := StringNull;
          Modifier.PlanValue := StringValue planned_html |}
     = StringValue planned_html.
Proof.
  split.
  - apply (proj1 (PlanModifyString_suppresses
                    {| Modifier.StateValue := StringValue stored_html;
                       Modifier.PlanValue := StringValue planned_html |}));
      vm_compute; reflexivity.
  - apply (proj2 (PlanModifyString_suppresses
                    {| Modifier.StateValue := StringNull;
                       Modifier.PlanValue := StringValue planned_html |})).
    left. reflexivity.
Defined.

(** Without suppression the planned text is kept literally. *)
Lemma PlanModifyString_keeps_real_change (req : Modifier.StringRequest) :
  Modifier.normalize (ValueString (Modifier.StateValue req))
    <> Modifier.normalize (ValueString (Modifier.PlanValue req)) ->
  Modifier.PlanModifyString req = Modifier.PlanValue req.
Proof.
  intros Hne. unfold Modifier.PlanModifyString.
  apply gostring_eqb_neq in Hne. rewrite Hne.
  destruct (IsNull (Modifier.StateValue req) || IsNull (Modifier.PlanValue req)); reflexivity.
Qed.

(** ** Update *)

(** C3.  An [Update] that returns without an error diagnostic stores a
    state whose [createdAt] is the prior one when that is not empty and a
    reading of the clock otherwise, and whose [updatedAt] is the reading
    of the clock that follows: no timestamp comes from the reply. *)
Theorem Update_timestamps (api : EmailAPI) (now : nat -> gostring)
    (plan state : EmailTemplateResourceModel) (r : Response) :
  Update api now plan state = Returned r ->
  HasError (resp_Diagnostics r) = false ->
  exists m,
    resp_State r = Some m
    /\ (ValueString (CreatedAt state) <> [] ->
        CreatedAt m = CreatedAt state /\ UpdatedAt m = StringValue (now 0%nat))
    /\ (ValueString (CreatedAt state) = [] ->
        CreatedAt m = StringValue (now 0%nat) /\ UpdatedAt m = StringValue (now 1%nat)).
Proof.
  unfold Update. intros Hrun Hok.
  destruct (reply_err _) as [err|].
  - injection Hrun as <-. discriminate Hok.
  - destruct (reply_template _) as [t|]; [|discriminate Hrun].
    injection Hrun as <-. eexists. split; [reflexivity|]. cbn. split.
    + intros Hne. apply gostring_eqb_neq in Hne. rewrite Hne. split; reflexivity.
    + intros He. apply gostring_eqb_eq in He. rewrite He. split; reflexivity.
Qed.

Lemma Update_timestamps_witness :
  exists m,
    Update (constant_api ok_reply removed_ok) wall_clock welcome_plan
      (stored_model (lit "7") (lit "2020-01-01T00:00:00Z")) = Returned m
    /\ exists s, resp_State m = Some s
       /\ CreatedAt s = StringValue (lit "2020-01-01T00:00:00Z")
       /\ UpdatedAt s = StringValue (wall_clock 0%nat).
Proof.
  eexists. split; [reflexivity|].
  destruct (Update_timestamps (constant_api ok_reply removed_ok) wall_clock welcome_plan
              (stored_model (lit "7") (lit "2020-01-01T00:00:00Z")) _ eq_refl eq_refl)
    as [s [Hs [Hkeep _]]].
  exists s. split; [exact Hs|].
  apply Hkeep. vm_compute. discriminate.
Defined.

(** ** Delete *)

(** C4.  A removal answered with HTTP 404 ends with the state removed and
    no diagnostic; any other failed removal ends with an error diagnostic
    and the state as it was. *)
Theorem Delete_tolerates_not_found (api : EmailAPI) (data : EmailTemplateResourceModel) :
  let reply := RemoveEmailTemplate api (parse_id (ValueString (ID data))) in
  (forall h, removed_http reply = Some h -> StatusCode h = 404 ->
     Delete api data = Returned {| resp_Diagnostics := []; resp_State := None |})
  /\ (forall err, removed_err reply = Some err ->
      (forall h, removed_http reply = Some h -> StatusCode h <> 404) ->
      exists r, Delete api data = Returned r
        /\ HasError (resp_Diagnostics r) = true
        /\ resp_State r = Some data).
Proof.
  cbv zeta. unfold Delete. split.
  - intros h Hh H404. rewrite Hh.
    apply Z.eqb_eq in H404. rewrite H404.
    destruct (removed_err _); reflexivity.
  - intros err Herr Hnot. rewrite Herr.
    destruct (removed_http _) as [h|].
    + specialize (Hnot h eq_refl). apply Z.eqb_neq in Hnot. rewrite Hnot.
      eexists. split; [reflexivity|]. split; reflexivity.
    + eexists. split; [reflexivity|]. split; reflexivity.
Qed.

Lemma Delete_tolerates_not_found_witness :
  Delete (constant_api ok_reply removed_404) (stored_model (lit "7") (lit ""))
    = Returned {| resp_Diagnostics := []; resp_State := None |}
  /\ exists r,
       Delete (constant_api ok_reply removed_500) (stored_model (lit "7") (lit "")) = Returned r
       /\ HasError (resp_Diagnostics r) = true
       /\ resp_State r = Some (stored_model (lit "7") (lit "")).
Proof.
  split.
  - apply (proj1 (Delete_tolerates_not_found (constant_api ok_reply removed_404)
                    (stored_model (lit "7") (lit ""))) (mkHttp 404)); reflexivity.
  - apply (proj2 (Delete_tolerates_not_found (constant_api ok_reply removed_500)
                    (stored_model (lit "7") (lit ""))) (lit "500 Internal Server Error")).
    + reflexivity.
    + intros h Hh. injection Hh as <-. cbn. discriminate.
Defined.

(** ** Provider configuration *)

Lemma HasError_app_r (d : Diagnostics) (x : Diagnostic) : HasError (d ++ [x]) = true.
Proof. destruct d; reflexivity. Qed.

(** A configuration without unknown values gets past the first check. *)
Lemma Configure_known
    (GetAll : gostring -> gostring -> VerifyReply) (env : Environ)
    (config : pocInfobipEmailsProviderModel) :
  IsUnknown (BaseUrl config) = false ->
  IsUnknown (ApiKey config) = false ->
  Configure GetAll env config =
    let base_url := resolve_base_url env config in
    let api_key := resolve_api_key env config in
    let d := if gostring_eqb base_url [] then [missing_base_url] else [] in
    let d := if gostring_eqb api_key [] then d ++ [missing_api_key] else d in
    if HasError d then failed d
    else
      match verify_err (GetAll base_url api_key) with
      | Some err => failed (AddError d (lit "Failed to fetch all email templates") err)
      | None =>
          {| cfg_Diagnostics :=
               if negb (verify_has_results (GetAll base_url api_key)) then
                 AddError d (lit "Invalid response")
                   (lit "Expected messages, but got: "
                      ++ verify_text (GetAll base_url api_key))
               else d;
             ResourceData := Some {| client_Host := base_url; apiKey := api_key |};
             DataSourceData := Some {| client_Host := base_url; apiKey := api_key |} |}
      end.
Proof.
  intros Hb Hk. unfold Configure. rewrite Hb, Hk. reflexivity.
Qed.

(** Whatever the configuration, a client is handed to the resources only
    with the two resolved values, both non-empty. *)
Lemma Configure_client
    (GetAll : gostring -> gostring -> VerifyReply) (env : Environ)
    (config : pocInfobipEmailsProviderModel) (pc : providerClient) :
  ResourceData (Configure GetAll env config) = Some pc ->
  client_Host pc = resolve_base_url env config
  /\ apiKey pc = resolve_api_key env config
  /\ resolve_base_url env config <> []
  /\ resolve_api_key env config <> [].
Proof.
  unfold Configure.
  destruct (IsUnknown (BaseUrl config)), (IsUnknown (ApiKey config));
    cbn [HasError AddAttributeError app failed ResourceData]; try discriminate.
  change (lit "") with (@nil rune).
  destruct (gostring_eqb (resolve_base_url env config) []) eqn:Eb;
    destruct (gostring_eqb (resolve_api_key env config) []) eqn:Ek;
    cbn [HasError AddAttributeError app failed ResourceData]; try discriminate.
  apply gostring_eqb_neq in Eb. apply gostring_eqb_neq in Ek.
  destruct (verify_err _); cbn [failed ResourceData]; [discriminate|].
  intros H. injection H as <-. cbn. repeat split; assumption.
Qed.



(** ** The two copies of the normaliser *)

(** C9.  The closure inside the plan modifier and [normalizeHTML] return
    the same text on every input. *)
Theorem inline_normalize_is_normalizeHTML (raw : gostring) :
  Modifier.normalize raw = normalizeHTML raw.
Proof.
  unfold Modifier.normalize, normalizeHTML. cbv zeta.
  reflexivity.
Qed.

(** ** Parsing the identifier *)

Lemma SkipSpace_no_token (s : gostring) :
  has_integer_token s = false ->
  match SkipSpace s with
  | None => True
  | Some s1 => scan_digits (snd (accept_sign s1)) = []
  end.
Proof.
  induction s as [|c t IH]; intros H.
  - reflexivity.
  - cbn [SkipSpace has_integer_token] in *.
    destruct (c =? LF); [exact I|].
    destruct (IsSpace c).
    + apply IH, H.
    + cbn [accept_sign].
      destruct (c =? 45) eqn:E1.
      * cbn [orb] in H. cbn [snd].
        destruct t as [|d t']; [reflexivity|]. cbn [scan_digits]. rewrite H. reflexivity.
      * destruct (c =? 43) eqn:E2.
        -- cbn [orb] in H. cbn [snd].
           destruct t as [|d t']; [reflexivity|]. cbn [scan_digits]. rewrite H. reflexivity.
        -- cbn [orb] in H. cbn [snd scan_digits]. rewrite H. reflexivity.
Qed.

Lemma scanInt_no_token (s : gostring) :
  has_integer_token s = false -> scanInt s = None.
Proof.
  intros H. apply SkipSpace_no_token in H. unfold scanInt.
  destruct (SkipSpace s) as [s1|]; [|reflexivity].
  destruct (accept_sign s1) as [neg s2]. cbn [snd] in H. rewrite H. reflexivity.
Qed.

(** What [%d] takes for an integer: blanks and a sign may come first;
    a number out of the range of [int64] is a scan error as well. *)
Example parse_id_samples :
  map parse_id [lit "42"; lit " 42"; lit "-5x"; lit "x42"; lit ""; lit "99999999999999999999"]
  = [42; 42; -5; 0; 0; 0].
Proof. vm_compute. reflexivity. Qed.

(** C10, as the code has it.  When the stored [id] holds no token for
    [%d] (it is not made of white space without a newline, then at most
    one sign, then a decimal digit), the scan yields no number, the integer
    stays 0 and no diagnostic comes from the parsing: Read, Update and
    Delete run exactly as the reply of the service for the integer id 0
    makes them, and return without a diagnostic when that reply carries no
    error. *)
Theorem id_parsing_defaults_to_zero
    (api : EmailAPI) (now : nat -> gostring) (Quote : gostring -> gostring)
    (plan state : EmailTemplateResourceModel) :
  has_integer_token (ValueString (ID state)) = false ->
  parse_id (ValueString (ID state)) = 0
  /\ (forall t, GetEmailTemplate api 0 = mkReply (Some t) (Some (mkHttp 200)) None ->
      exists m, Read api Quote state = Returned (mkResponse [] (Some m))
        /\ ID m = StringValue (Sprintf_d (et_ID t)))
  /\ (forall t, UpdateEmailTemplate api 0 (request_of plan)
                  = mkReply (Some t) (Some (mkHttp 200)) None ->
      exists m, Update api now plan state = Returned (mkResponse [] (Some m))
        /\ ID m = StringValue (Sprintf_d (et_ID t)))
  /\ (removed_err (RemoveEmailTemplate api 0) = None ->
      Delete api state = Returned (mkResponse [] None)).
Proof.
  intros H. assert (H0 : parse_id (ValueString (ID state)) = 0).
  { unfold parse_id. rewrite (scanInt_no_token _ H). reflexivity. }
  split; [exact H0|]. split; [|split].
  - intros t Ht. unfold Read. rewrite H0, Ht. cbn. eexists. split; reflexivity.
  - intros t Ht. unfold Update. rewrite H0, Ht. cbn. eexists. split; reflexivity.
  - intros Hr. unfold Delete. rewrite H0, Hr. reflexivity.
Qed.

Lemma id_parsing_defaults_to_zero_witness :
  parse_id (lit "imported-template") = 0
  /\ Delete only_zero_api (stored_model (lit "imported-template") (lit ""))
     = Returned (mkResponse [] None).
Proof.
  destruct (id_parsing_defaults_to_zero only_zero_api wall_clock (fun s => s) welcome_plan
              (stored_model (lit "imported-template") (lit "")) eq_refl)
    as [Hz [_ [_ Hd]]].
  split; [exact Hz|]. apply Hd. reflexivity.
Defined.

(** C10, as it is worded, fails: the id [" 42"] begins with a space, not
    with a decimal integer, and yet the scan passes over the space and
    reads 42.  Delete then addresses the template 42: a service that knows
    only the template 0 answers with an error and the state is kept. *)
Lemma id_after_space_is_parsed :
  begins_with_digit (lit " 42") = false
  /\ hd 0 (lit " 42") = SP
  /\ parse_id (lit " 42") = 42
  /\ exists d,
       Delete only_zero_api (stored_model (lit " 42") (lit ""))
       = Returned (mkResponse [d] (Some (stored_model (lit " 42") (lit "")))).
Proof.
  split; [reflexivity|]. split; [reflexivity|]. split; [vm_compute; reflexivity|].
  eexists. vm_compute. reflexivity.
Defined.

(** ** The regular expression replacement *)

Lemma re_space_IsSpace (c : rune) : re_space c = true -> IsSpace c = true.
Proof.
  unfold re_space. intros H.
  repeat (apply orb_prop in H; destruct H as [H | H]);
    apply Z.eqb_eq in H; subst c; reflexivity.
Qed.

Lemma SP_IsSpace (c : rune) : (c =? SP) = true -> IsSpace c = true.
Proof. intros H. apply Z.eqb_eq in H. subst c. reflexivity. Qed.

Lemma replace_go_skipn (k : nat) (s : gostring) :
  replace_go k s = replace_go 0 (skipn k s).
Proof.
  revert k. induction s as [|c t IH]; intros [|k]; try reflexivity.
  cbn [replace_go skipn]. apply IH.
Qed.

(** The prefix matched by [[\s]*<] is a run of [\s] followed by [<]. *)
Lemma ws_then_lt_Some (t : gostring) (n : nat) :
  ws_then_lt t = Some n ->
  exists w r, t = w ++ LT :: r /\ forallb re_space w = true /\ skipn n t = r.
Proof.
  revert n. induction t as [|c t IH]; intros n H; [discriminate|].
  cbn [ws_then_lt] in H. destruct (Z.eqb_spec c LT) as [->|Hc].
  - injection H as <-. exists [], t. repeat split.
  - destruct (re_space c) eqn:Ec; [|discriminate].
    destruct (ws_then_lt t) as [m|]; [|discriminate]. injection H as <-.
    destruct (IH m eq_refl) as [w [r [-> [Hw Hr]]]].
    exists (c :: w), r. cbn [forallb app skipn]. rewrite Ec, Hw. repeat split. exact Hr.
Qed.

Lemma ws_then_lt_run (w r : gostring) :
  forallb re_space w = true ->
  ws_then_lt (w ++ LT :: r) = Some (S (length w)).
Proof.
  induction w as [|c w IH]; intros H; cbn [app ws_then_lt length].
  - reflexivity.
  - cbn [forallb] in H. apply andb_prop in H. destruct H as [Hc Hw].
    destruct (Z.eqb_spec c LT) as [->|_]; [discriminate Hc|].
    rewrite Hc, (IH Hw). reflexivity.
Qed.

Lemma squeeze_nil : ReplaceAllString_gap [] = [].
Proof. reflexivity. Qed.

Lemma squeeze_other (c : rune) (t : gostring) :
  c <> GT -> ReplaceAllString_gap (c :: t) = c :: ReplaceAllString_gap t.
Proof.
  intros H. unfold ReplaceAllString_gap. cbn [replace_go match_gap].
  apply Z.eqb_neq in H. rewrite H. reflexivity.
Qed.

Lemma squeeze_open (t : gostring) :
  ws_then_lt t = None ->
  ReplaceAllString_gap (GT :: t) = GT :: ReplaceAllString_gap t.
Proof.
  intros H. unfold ReplaceAllString_gap. cbn [replace_go match_gap].
  rewrite Z.eqb_refl, H. reflexivity.
Qed.

Lemma squeeze_gap (w r : gostring) :
  forallb re_space w = true ->
  ReplaceAllString_gap (GT :: w ++ LT :: r) = GT :: LT :: ReplaceAllString_gap r.
Proof.
  intros H. unfold ReplaceAllString_gap. cbn [replace_go match_gap].
  rewrite Z.eqb_refl, (ws_then_lt_run w r H). cbn [option_map Nat.pred].
  rewrite replace_go_skipn.
  replace (skipn (S (length w)) (w ++ LT :: r)) with r; [reflexivity|].
  clear H. induction w as [|c w IH]; [reflexivity | exact IH].
Qed.

(** The shapes a string has for the replacement: the induction that
    follows the scan. *)
Lemma squeeze_ind (P : gostring -> Prop) :
  P [] ->
  (forall c t, c <> GT -> P t -> P (c :: t)) ->
  (forall t, ws_then_lt t = None -> P t -> P (GT :: t)) ->
  (forall w r, forallb re_space w = true -> P r -> P (GT :: w ++ LT :: r)) ->
  forall s, P s.
Proof.
  intros Hnil Hother Hopen Hgap s.
  assert (H : forall n s, (length s <= n)%nat -> P s).
  { clear s. induction n as [|n IH]; intros s Hlen.
    - destruct s; [exact Hnil | cbn in Hlen; lia].
    - destruct s as [|c t]; [exact Hnil|]. cbn [length] in Hlen.
      destruct (Z.eq_dec c GT) as [->|Hc].
      + destruct (ws_then_lt t) as [k|] eqn:E.
        * destruct (ws_then_lt_Some t k E) as [w [r [-> [Hw _]]]].
          apply Hgap; [exact Hw|]. apply IH.
          rewrite length_app in Hlen. cbn [length] in Hlen. lia.
        * apply Hopen; [exact E|]. apply IH. lia.
      + apply Hother; [exact Hc|]. apply IH. lia. }
  apply (H (length s)). lia.
Qed.

(** The replacement keeps the first rune of its input. *)
Lemma squeeze_head (c : rune) (t : gostring) :
  exists t', ReplaceAllString_gap (c :: t) = c :: t'.
Proof.
  unfold ReplaceAllString_gap. cbn [replace_go match_gap].
  destruct (Z.eqb_spec c GT) as [->|_].
  - destruct (ws_then_lt t); cbn [option_map]; eexists; reflexivity.
  - eexists; reflexivity.
Qed.

Lemma ws_then_lt_squeeze (t : gostring) :
  ws_then_lt (ReplaceAllString_gap t) = ws_then_lt t.
Proof.
  induction t as [|c t IH]; [reflexivity|].
  destruct (Z.eqb_spec c LT) as [->|Hlt].
  - rewrite squeeze_other by discriminate. reflexivity.
  - destruct (re_space c) eqn:Ec.
    + assert (Hgt : c <> GT) by (intros ->; discriminate Ec).
      rewrite (squeeze_other c t Hgt). cbn [ws_then_lt]. rewrite IH. reflexivity.
    + destruct (squeeze_head c t) as [t' ->]. cbn [ws_then_lt].
      apply Z.eqb_neq in Hlt. rewrite Hlt, Ec. reflexivity.
Qed.

(** Replacing twice changes nothing more. *)
Lemma squeeze_idempotent (s : gostring) :
  ReplaceAllString_gap (ReplaceAllString_gap s) = ReplaceAllString_gap s.
Proof.
  induction s as [|c t Hc IH|t Hnone IH|w r Hw IH] using squeeze_ind.
  - reflexivity.
  - rewrite !(squeeze_other c _ Hc), IH. reflexivity.
  - rewrite (squeeze_open t Hnone).
    rewrite squeeze_open by (rewrite ws_then_lt_squeeze; exact Hnone).
    rewrite IH. reflexivity.
  - rewrite (squeeze_gap w r Hw).
    rewrite (squeeze_gap [] (ReplaceAllString_gap r) eq_refl : ReplaceAllString_gap (GT :: LT :: _) = _), IH.
    reflexivity.
Qed.

Lemma ws_then_lt_None_app (t rest : gostring) :
  ws_then_lt t = None -> ws_then_lt (t ++ GT :: rest) = None.
Proof.
  induction t as [|c t IH]; intros H.
  - reflexivity.
  - cbn [app ws_then_lt] in *. destruct (c =? LT); [discriminate|].
    destruct (re_space c); [|reflexivity].
    destruct (ws_then_lt t); [discriminate|]. rewrite IH; reflexivity.
Qed.

(** A gap further right is closed whatever white space it holds. *)
Lemma squeeze_far_gap (y w z : gostring) :
  forallb re_space w = true ->
  ReplaceAllString_gap (y ++ GT :: w ++ LT :: z)
    = ReplaceAllString_gap (y ++ GT :: LT :: z).
Proof.
  intros Hw.
  induction y as [|c t Hc IH|t Hnone IH|w' r Hw' IH] using squeeze_ind.
  - cbn [app]. rewrite (squeeze_gap w z Hw).
    symmetry. exact (squeeze_gap [] z eq_refl).
  - cbn [app]. rewrite !(squeeze_other c _ Hc), IH. reflexivity.
  - cbn [app]. rewrite !squeeze_open by (apply ws_then_lt_None_app, Hnone).
    rewrite IH. reflexivity.
  - cbn [app]. rewrite <- !app_assoc. cbn [app].
    rewrite !(squeeze_gap w' _ Hw'), IH. reflexivity.
Qed.

(** ** Fields of a string *)

Lemma close_field_nil (rest : list gostring) : close_field [] rest = rest.
Proof. reflexivity. Qed.

Lemma close_field_cons (cur : gostring) (rest : list gostring) :
  cur <> [] -> close_field cur rest = cur :: rest.
Proof. destruct cur; [congruence | reflexivity]. Qed.

Lemma close_field_twice (cur : gostring) (rest : list gostring) :
  close_field cur (close_field [] rest) = close_field cur rest.
Proof. reflexivity. Qed.

(** A run of white space closes the field being read. *)
Lemma fields_go_run (w s cur : gostring) :
  forallb IsSpace w = true -> w <> [] ->
  fields_go cur (w ++ s) = close_field cur (fields_go [] s).
Proof.
  revert cur. induction w as [|c w IH]; intros cur Hw Hne; [congruence|].
  cbn [forallb] in Hw. apply andb_prop in Hw. destruct Hw as [Hc Hw].
  cbn [app fields_go]. rewrite Hc.
  destruct w as [|d w]; [reflexivity|].
  rewrite (IH [] Hw) by discriminate. reflexivity.
Qed.

Lemma fields_go_leading (w s : gostring) :
  forallb IsSpace w = true -> fields_go [] (w ++ s) = fields_go [] s.
Proof.
  intros Hw. destruct w as [|c w]; [reflexivity|].
  rewrite fields_go_run by (exact Hw || discriminate). reflexivity.
Qed.

Lemma fields_go_blank (w cur : gostring) :
  forallb IsSpace w = true -> fields_go cur w = close_field cur [].
Proof.
  intros Hw. destruct w as [|c w]; [reflexivity|].
  rewrite <- (app_nil_r (c :: w)).
  rewrite fields_go_run by (exact Hw || discriminate). reflexivity.
Qed.

(** The scan of a prefix leaves closed fields and a field being read. *)
Lemma fields_go_app (p cur : gostring) :
  exists done cur', forall r, fields_go cur (p ++ r) = done ++ fields_go cur' r.
Proof.
  revert cur. induction p as [|c p IH]; intros cur.
  - exists [], cur. reflexivity.
  - cbn [app fields_go]. destruct (IsSpace c).
    + destruct (IH []) as [done [cur' H]].
      exists (close_field cur done), cur'. intros r. rewrite H.
      destruct cur; reflexivity.
    + apply IH.
Qed.

(** With a field being read, the first field of the result extends it. *)
Lemma fields_go_extend (q cur : gostring) :
  cur <> [] ->
  exists tok rest, forall x, fields_go (x ++ cur) q = (x ++ cur ++ tok) :: rest.
Proof.
  revert cur. induction q as [|c q IH]; intros cur Hne.
  - exists [], []. intros x. cbn [fields_go]. rewrite app_nil_r.
    apply close_field_cons. destruct x; [exact Hne | discriminate].
  - cbn [fields_go]. destruct (IsSpace c).
    + exists [], (fields_go [] q). intros x. rewrite app_nil_r.
      apply close_field_cons. destruct x; [exact Hne | discriminate].
    + destruct (IH (cur ++ [c])) as [tok [rest H]].
      { destruct cur; discriminate. }
      exists (c :: tok), rest. intros x.
      rewrite <- app_assoc, H, <- app_assoc. reflexivity.
Qed.

(** *** CRLF and trimming do not change the fields *)

Lemma ReplaceAll_CRLF_pair (c d : rune) (t : gostring) :
  ReplaceAll_CRLF (c :: d :: t)
    = if (c =? CR) && (d =? LF) then LF :: ReplaceAll_CRLF t
      else c :: ReplaceAll_CRLF (d :: t).
Proof. reflexivity. Qed.

Lemma crlf_to_lf_pair (c d : rune) (t : gostring) :
  Reference.crlf_to_lf (c :: d :: t)
    = if (c =? CR) && (d =? LF) then Reference.crlf_to_lf (d :: t)
      else c :: Reference.crlf_to_lf (d :: t).
Proof. reflexivity. Qed.

Lemma crlf_to_lf_LF (t : gostring) :
  Reference.crlf_to_lf (LF :: t) = LF :: Reference.crlf_to_lf t.
Proof. reflexivity. Qed.

Lemma ReplaceAll_CRLF_reference (s : gostring) :
  ReplaceAll_CRLF s = Reference.crlf_to_lf s.
Proof.
  assert (H : forall n s, (length s <= n)%nat ->
                ReplaceAll_CRLF s = Reference.crlf_to_lf s).
  { clear s. induction n as [|n IH]; intros s Hlen.
    - destruct s; [reflexivity | cbn in Hlen; lia].
    - destruct s as [|c [|d t]]; [reflexivity | | ].
      + cbn. rewrite andb_false_r. reflexivity.
      + cbn [length] in Hlen. rewrite ReplaceAll_CRLF_pair, crlf_to_lf_pair.
        destruct ((c =? CR) && (d =? LF)) eqn:E.
        * apply andb_prop in E. destruct E as [_ Ed].
          apply Z.eqb_eq in Ed. subst d. rewrite crlf_to_lf_LF.
          rewrite IH by lia. reflexivity.
        * rewrite IH by (cbn [length]; lia). reflexivity. }
  apply (H (length s)). lia.
Qed.

Lemma fields_go_crlf (s cur : gostring) :
  fields_go cur (Reference.crlf_to_lf s) = fields_go cur s.
Proof.
  revert cur. induction s as [|c t IH]; intros cur; [reflexivity|].
  cbn [Reference.crlf_to_lf].
  destruct ((c =? CR) && (match t with d :: _ => d =? LF | [] => false end)) eqn:E.
  - apply andb_prop in E. destruct E as [Ec Ed].
    apply Z.eqb_eq in Ec. subst c.
    destruct t as [|d t']; [discriminate|]. apply Z.eqb_eq in Ed. subst d.
    rewrite IH. reflexivity.
  - cbn [fields_go]. destruct (IsSpace c); rewrite IH; reflexivity.
Qed.

Lemma TrimLeftSpace_reference (s : gostring) :
  TrimLeftSpace s = Reference.drop_leading s.
Proof. induction s as [|c t IH]; cbn; [|rewrite IH]; reflexivity. Qed.

Lemma TrimLeftSpace_app (a b : gostring) :
  TrimLeftSpace (a ++ b)
    = if forallb IsSpace a then TrimLeftSpace b else TrimLeftSpace a ++ b.
Proof.
  induction a as [|c a IH]; [reflexivity|].
  cbn [app TrimLeftSpace forallb]. destruct (IsSpace c); [exact IH | reflexivity].
Qed.

Lemma forallb_rev {A : Type} (f : A -> bool) (l : list A) :
  forallb f (rev l) = forallb f l.
Proof.
  induction l as [|x l IH]; [reflexivity|].
  cbn [rev forallb]. rewrite forallb_app, IH. cbn. rewrite andb_true_r.
  apply andb_comm.
Qed.

Lemma drop_trailing_blank (s : gostring) :
  forallb IsSpace s = true -> Reference.drop_trailing s = [].
Proof.
  intros H. destruct s as [|c t]; [reflexivity|].
  cbn [Reference.drop_trailing]. rewrite H. reflexivity.
Qed.

Lemma TrimRightSpace_reference (s : gostring) :
  TrimRightSpace s = Reference.drop_trailing s.
Proof.
  unfold TrimRightSpace. induction s as [|c t IH]; [reflexivity|].
  cbn [rev]. rewrite TrimLeftSpace_app, forallb_rev.
  cbn [Reference.drop_trailing forallb].
  destruct (forallb IsSpace t) eqn:Et.
  - cbn [TrimLeftSpace]. destruct (IsSpace c); [reflexivity|].
    cbn [andb rev app]. rewrite (drop_trailing_blank t Et). reflexivity.
  - rewrite andb_false_r, rev_app_distr, IH. reflexivity.
Qed.

Lemma fields_go_TrimLeftSpace (s : gostring) :
  fields_go [] (TrimLeftSpace s) = fields_go [] s.
Proof.
  induction s as [|c t IH]; [reflexivity|].
  cbn [TrimLeftSpace]. destruct (IsSpace c) eqn:Ec; [|reflexivity].
  cbn [fields_go]. rewrite Ec. exact IH.
Qed.

Lemma fields_go_drop_trailing (s cur : gostring) :
  fields_go cur (Reference.drop_trailing s) = fields_go cur s.
Proof.
  revert cur. induction s as [|c t IH]; intros cur; [reflexivity|].
  cbn [Reference.drop_trailing].
  destruct (forallb IsSpace (c :: t)) eqn:E.
  - rewrite (fields_go_blank (c :: t) cur E). reflexivity.
  - cbn [fields_go]. destruct (IsSpace c); rewrite IH; reflexivity.
Qed.

Lemma Fields_TrimSpace (s : gostring) : Fields (TrimSpace s) = Fields s.
Proof.
  unfold Fields, TrimSpace. rewrite TrimRightSpace_reference.
  rewrite fields_go_drop_trailing. apply fields_go_TrimLeftSpace.
Qed.

Lemma Fields_ReplaceAll_CRLF (s : gostring) : Fields (ReplaceAll_CRLF s) = Fields s.
Proof. unfold Fields. rewrite ReplaceAll_CRLF_reference. apply fields_go_crlf. Qed.

(** The normaliser only looks at the fields of its input. *)
Lemma normalizeHTML_fields (raw : gostring) :
  normalizeHTML raw = ReplaceAllString_gap (Join (Fields raw) [SP]).
Proof.
  unfold normalizeHTML. cbv zeta.
  rewrite Fields_TrimSpace, Fields_ReplaceAll_CRLF. reflexivity.
Qed.

(** ** Tidy strings: what [Join (Fields s) " "] produces *)

Lemma not_space_not_SP (c : rune) : IsSpace c = false -> (c =? SP) = false.
Proof.
  intros H. destruct (Z.eqb_spec c SP) as [->|_]; [discriminate H | reflexivity].
Qed.

Lemma tidy_after_solid (a x : gostring) (b : bool) :
  solid a = true -> a <> [] -> tidy_after b (a ++ x) = tidy_after false x.
Proof.
  revert b. induction a as [|c a IH]; intros b Ha Hne; [congruence|].
  cbn [solid forallb] in Ha. apply andb_prop in Ha. destruct Ha as [Hc Ha].
  apply negb_true_iff in Hc. cbn [app tidy_after].
  rewrite (not_space_not_SP c Hc), Hc. cbn [negb andb].
  destruct a as [|d a]; [reflexivity|]. apply IH; [exact Ha | discriminate].
Qed.

Lemma solid_app (a b : gostring) : solid (a ++ b) = solid a && solid b.
Proof. apply forallb_app. Qed.

(** Every field is non-empty and free of white space. *)
Lemma fields_go_solid (s cur : gostring) :
  solid cur = true ->
  Forall (fun t => t <> [] /\ solid t = true) (fields_go cur s).
Proof.
  revert cur. induction s as [|c t IH]; intros cur Hcur.
  - cbn [fields_go]. destruct cur; constructor; [split; [discriminate | exact Hcur] | constructor].
  - cbn [fields_go]. destruct (IsSpace c) eqn:Ec.
    + destruct cur as [|x cur]; cbn [close_field].
      * apply IH. reflexivity.
      * constructor; [split; [discriminate | exact Hcur] | apply IH; reflexivity].
    + apply IH. rewrite solid_app, Hcur. cbn. rewrite Ec. reflexivity.
Qed.

Lemma Join_solid_tidy (toks : list gostring) :
  Forall (fun t => t <> [] /\ solid t = true) toks ->
  toks <> [] -> tidy_after true (Join toks [SP]) = true.
Proof.
  induction 1 as [|a rest [Hne Ha] Hrest IH]; intros Htoks; [now elim Htoks|].
  cbn [Join]. destruct rest as [|b rest].
  - rewrite <- (app_nil_r a). rewrite tidy_after_solid by assumption. reflexivity.
  - rewrite tidy_after_solid by assumption.
    cbn [app tidy_after]. rewrite Z.eqb_refl. cbn [negb andb].
    apply IH. discriminate.
Qed.

Lemma Join_nonempty (toks : list gostring) (sep : gostring) :
  Forall (fun t => t <> [] /\ solid t = true) toks ->
  toks <> [] -> Join toks sep <> [].
Proof.
  intros H Hne. destruct toks as [|a rest]; [now elim Hne|].
  apply Forall_inv in H. destruct H as [Ha _].
  cbn [Join]. destruct rest; destruct a; try discriminate; now elim Ha.
Qed.

Lemma tidy_Join_Fields (s : gostring) : tidy (Join (Fields s) [SP]) = true.
Proof.
  pose proof (fields_go_solid s [] eq_refl) as H. fold (Fields s) in H.
  destruct (Fields s) as [|a rest] eqn:E; [reflexivity|].
  assert (Hne : a :: rest <> []) by discriminate.
  pose proof (Join_solid_tidy _ H Hne) as Ht.
  pose proof (Join_nonempty _ [SP] H Hne) as Hj.
  unfold tidy. destruct (Join (a :: rest) [SP]); [congruence | exact Ht].
Qed.

Lemma fields_go_nonempty (s cur : gostring) : cur <> [] -> fields_go cur s <> [].
Proof.
  intros Hne. destruct (fields_go_extend s cur Hne) as [tok [rest H]].
  specialize (H []). cbn [app] in H. rewrite H. discriminate.
Qed.

(** On a tidy string, splitting and joining gives the string back. *)
Lemma Join_fields_go_tidy (s : gostring) :
  (forall cur, cur <> [] -> tidy_after false s = true ->
     Join (fields_go cur s) [SP] = cur ++ s)
  /\ (tidy_after true s = true ->
      Join (fields_go [] s) [SP] = s /\ fields_go [] s <> []).
Proof.
  induction s as [|c t [IH1 IH2]]; split.
  - intros cur Hne _. cbn [fields_go]. rewrite close_field_cons by exact Hne.
    cbn [Join]. rewrite app_nil_r. reflexivity.
  - discriminate.
  - intros cur Hne Ht. cbn [tidy_after] in Ht. cbn [fields_go].
    destruct (Z.eqb_spec c SP) as [->|Hc].
    + cbn [negb andb] in Ht. destruct (IH2 Ht) as [Hj Hf].
      change (IsSpace SP) with true. cbv iota.
      rewrite close_field_cons by exact Hne.
      cbn [Join]. destruct (fields_go [] t) as [|x xs] eqn:E; [congruence|].
      rewrite Hj. reflexivity.
    + apply andb_prop in Ht. destruct Ht as [Hs Ht].
      apply negb_true_iff in Hs. rewrite Hs.
      rewrite IH1; [rewrite <- app_assoc; reflexivity | destruct cur; discriminate | exact Ht].
  - intros Ht. cbn [tidy_after] in Ht. cbn [fields_go].
    destruct (c =? SP); [discriminate Ht|].
    apply andb_prop in Ht. destruct Ht as [Hs Ht].
    apply negb_true_iff in Hs. rewrite Hs. cbn [app]. split.
    + apply (IH1 [c]); [discriminate | exact Ht].
    + apply fields_go_nonempty. discriminate.
Qed.

Lemma Join_Fields_tidy (s : gostring) :
  tidy s = true -> Join (Fields s) [SP] = s.
Proof.
  destruct s as [|c t]; [reflexivity|]. intros H.
  apply (proj2 (Join_fields_go_tidy (c :: t))). exact H.
Qed.

Lemma tidy_after_gap (w r : gostring) (b : bool) :
  forallb re_space w = true ->
  tidy_after b (w ++ LT :: r) = true -> tidy_after false r = true.
Proof.
  revert b. induction w as [|c w IH]; intros b Hw H.
  - cbn [app tidy_after] in H. exact H.
  - cbn [forallb] in Hw. apply andb_prop in Hw. destruct Hw as [Hc Hw].
    cbn [app tidy_after] in H. destruct (c =? SP).
    + apply andb_prop in H. destruct H as [_ H]. apply (IH true Hw H).
    + rewrite (re_space_IsSpace c Hc) in H. discriminate H.
Qed.

Lemma tidy_after_squeeze (s : gostring) :
  forall b, tidy_after b s = true -> tidy_after b (ReplaceAllString_gap s) = true.
Proof.
  induction s as [|c t Hc IH|t Hnone IH|w r Hw IH] using squeeze_ind; intros b H.
  - exact H.
  - rewrite (squeeze_other c t Hc). cbn [tidy_after] in *.
    destruct (c =? SP).
    + apply andb_prop in H. destruct H as [Hb H]. rewrite Hb, (IH true H). reflexivity.
    + apply andb_prop in H. destruct H as [Hb H]. rewrite Hb, (IH false H). reflexivity.
  - rewrite (squeeze_open t Hnone). cbn [tidy_after] in *.
    change (GT =? SP) with false in *. cbv iota in *.
    change (IsSpace GT) with false in *. cbn [negb andb] in *. apply IH, H.
  - rewrite (squeeze_gap w r Hw). cbn [tidy_after] in H.
    change (GT =? SP) with false in H. change (IsSpace GT) with false in H.
    cbn [negb andb] in H. apply (tidy_after_gap w r false Hw) in H.
    cbn [tidy_after]. change (GT =? SP) with false. change (LT =? SP) with false.
    change (IsSpace GT) with false. change (IsSpace LT) with false.
    cbn [negb andb]. apply IH, H.
Qed.

Lemma tidy_squeeze (s : gostring) :
  tidy s = true -> tidy (ReplaceAllString_gap s) = true.
Proof.
  destruct s as [|c t]; [reflexivity|]. intros H.
  destruct (squeeze_head c t) as [t' E].
  unfold tidy in *. pose proof (tidy_after_squeeze (c :: t) true H) as Ht.
  rewrite E in *. exact Ht.
Qed.

(** The planned text of the specification's example normalises to the
    stored one; white space inside text is kept as one space. *)
Example normalizeHTML_samples :
  normalizeHTML planned_html = stored_html
  /\ normalizeHTML (lit "  <p>a" ++ [TAB; CR; LF] ++ lit " b </p> <i> c</i> ")
     = lit "<p>a b </p><i> c</i>".
Proof. split; vm_compute; reflexivity. Qed.

(** C6.  Normalising a normalised text changes nothing. *)
Theorem normalizeHTML_idempotent (a : gostring) :
  normalizeHTML a = normalizeHTML (normalizeHTML a).
Proof.
  rewrite (normalizeHTML_fields (normalizeHTML a)), (normalizeHTML_fields a).
  rewrite (Join_Fields_tidy _ (tidy_squeeze _ (tidy_Join_Fields a))).
  symmetry. apply squeeze_idempotent.
Qed.

(** ** The reference normaliser *)

Lemma drop_trailing_keeps_solid (t : gostring) :
  forallb IsSpace t = false -> forallb IsSpace (Reference.drop_trailing t) = false.
Proof.
  induction t as [|d t IH]; intros H; [discriminate|].
  cbn [Reference.drop_trailing]. rewrite H. cbn [forallb] in *.
  destruct (IsSpace d); [|reflexivity]. cbn [andb] in *. apply IH, H.
Qed.

Lemma drop_trailing_idempotent (s : gostring) :
  Reference.drop_trailing (Reference.drop_trailing s) = Reference.drop_trailing s.
Proof.
  induction s as [|c t IH]; [reflexivity|].
  cbn [Reference.drop_trailing]. destruct (forallb IsSpace (c :: t)) eqn:E; [reflexivity|].
  cbn [Reference.drop_trailing].
  replace (forallb IsSpace (c :: Reference.drop_trailing t)) with false.
  - rewrite IH. reflexivity.
  - symmetry. cbn [forallb] in *. destruct (IsSpace c); [|reflexivity].
    cbn [andb] in *. apply drop_trailing_keeps_solid, E.
Qed.

(** On a string without trailing white space, collapsing the runs is
    joining the fields, up to one space for leading white space. *)
Lemma collapse_runs_fields (s : gostring) :
  Reference.drop_trailing s = s ->
  (forall cur, cur <> [] ->
     Join (fields_go cur s) [SP] = cur ++ Reference.collapse_runs s)
  /\ (s <> [] ->
      fields_go [] s <> []
      /\ Reference.collapse_runs s = leading_space s ++ Join (fields_go [] s) [SP]).
Proof.
  induction s as [|c t IH]; intros Hs.
  - split; [|intros H; now elim H].
    intros cur Hne. cbn [fields_go]. rewrite close_field_cons by exact Hne.
    cbn [Join Reference.collapse_runs]. rewrite app_nil_r. reflexivity.
  - cbn [Reference.drop_trailing] in Hs.
    destruct (forallb IsSpace (c :: t)) eqn:E; [discriminate Hs|].
    injection Hs as Hs. destruct (IH Hs) as [IH1 IH2]. clear IH.
    cbn [forallb] in E.
    assert (Hsp : IsSpace c = true ->
                  fields_go [] t <> []
                  /\ Reference.collapse_runs (c :: t) = SP :: Join (fields_go [] t) [SP]).
    { intros Hc. rewrite Hc in E. cbn [andb] in E.
      destruct t as [|d t']; [discriminate E|].
      destruct IH2 as [Hf Hcr]; [discriminate|]. split; [exact Hf|].
      change (Reference.collapse_runs (c :: d :: t'))
        with (if IsSpace c
              then if IsSpace d then Reference.collapse_runs (d :: t')
                   else SP :: Reference.collapse_runs (d :: t')
              else c :: Reference.collapse_runs (d :: t')).
      rewrite Hc, Hcr. cbn [leading_space].
      destruct (IsSpace d); reflexivity. }
    split.
    + intros cur Hne. cbn [fields_go]. destruct (IsSpace c) eqn:Ec.
      * destruct (Hsp eq_refl) as [Hf Hcr]. rewrite Hcr.
        rewrite close_field_cons by exact Hne. cbn [Join].
        destruct (fields_go [] t); [now elim Hf | reflexivity].
      * rewrite IH1 by (destruct cur; discriminate).
        rewrite <- app_assoc. cbn [Reference.collapse_runs]. rewrite Ec. reflexivity.
    + intros _. cbn [fields_go leading_space]. destruct (IsSpace c) eqn:Ec.
      * destruct (Hsp eq_refl) as [Hf Hcr]. split; [exact Hf | exact Hcr].
      * split; [apply fields_go_nonempty; discriminate|].
        cbn [app]. rewrite (IH1 [c]) by discriminate.
        cbn [Reference.collapse_runs]. rewrite Ec. reflexivity.
Qed.

Lemma TrimLeftSpace_head (s : gostring) : leading_space (TrimLeftSpace s) = [].
Proof.
  induction s as [|c t IH]; [reflexivity|].
  cbn [TrimLeftSpace]. destruct (IsSpace c) eqn:Ec; [exact IH|].
  cbn [leading_space]. rewrite Ec. reflexivity.
Qed.

Lemma drop_trailing_head (s : gostring) :
  leading_space s = [] -> leading_space (Reference.drop_trailing s) = [].
Proof.
  destruct s as [|c t]; [reflexivity|]. cbn [leading_space Reference.drop_trailing forallb].
  destruct (IsSpace c) eqn:Ec; [discriminate|]. cbn [andb leading_space].
  rewrite Ec. reflexivity.
Qed.

(** Step 3 after step 2 is [Join (Fields ..) " "]. *)
Lemma collapse_runs_TrimSpace (s : gostring) :
  Reference.collapse_runs (TrimSpace s) = Join (Fields (TrimSpace s)) [SP].
Proof.
  unfold TrimSpace, Fields. rewrite TrimRightSpace_reference.
  pose proof (drop_trailing_head _ (TrimLeftSpace_head s)) as Hhead.
  pose proof (drop_trailing_idempotent (TrimLeftSpace s)) as Hend.
  destruct (Reference.drop_trailing (TrimLeftSpace s)) as [|c t] eqn:E; [reflexivity|].
  destruct (collapse_runs_fields (c :: t) Hend) as [_ H].
  destruct H as [_ H]; [discriminate|]. rewrite H, Hhead. reflexivity.
Qed.

Lemma closes_gap_tidy (t : gostring) (b : bool) :
  tidy_after b t = true ->
  Reference.closes_gap t = match ws_then_lt t with Some _ => true | None => false end.
Proof.
  revert b. induction t as [|c t IH]; intros b H; [reflexivity|].
  cbn [tidy_after] in H. cbn [Reference.closes_gap ws_then_lt].
  destruct (Z.eqb_spec c SP) as [->|Hc].
  - apply andb_prop in H. destruct H as [_ H].
    change (IsSpace SP) with true. change (SP =? LT) with false.
    change (re_space SP) with true. cbv iota. rewrite (IH true H).
    destruct (ws_then_lt t); reflexivity.
  - apply andb_prop in H. destruct H as [Hs _]. apply negb_true_iff in Hs.
    rewrite Hs. destruct (c =? LT); [reflexivity|].
    destruct (re_space c) eqn:Er; [|reflexivity].
    rewrite (re_space_IsSpace c Er) in Hs. discriminate Hs.
Qed.

Lemma closes_gap_run (w r : gostring) :
  forallb re_space w = true -> Reference.closes_gap (w ++ LT :: r) = true.
Proof.
  induction w as [|c w IH]; intros H; [reflexivity|].
  cbn [forallb] in H. apply andb_prop in H. destruct H as [Hc Hw].
  cbn [app Reference.closes_gap]. rewrite (re_space_IsSpace c Hc). apply IH, Hw.
Qed.

Lemma delete_gaps_run (w r : gostring) :
  forallb re_space w = true ->
  Reference.delete_gaps true (w ++ LT :: r) = LT :: Reference.delete_gaps false r.
Proof.
  induction w as [|c w IH]; intros H; [reflexivity|].
  cbn [forallb] in H. apply andb_prop in H. destruct H as [Hc Hw].
  cbn [app Reference.delete_gaps]. rewrite (re_space_IsSpace c Hc). cbn [andb].
  apply IH, Hw.
Qed.

(** Step 4 on a tidy string is the regular expression replacement. *)
Lemma delete_gaps_tidy (s : gostring) :
  forall b, tidy_after b s = true ->
  Reference.delete_gaps false s = ReplaceAllString_gap s.
Proof.
  induction s as [|c t Hc IH|t Hnone IH|w r Hw IH] using squeeze_ind; intros b H.
  - reflexivity.
  - rewrite (squeeze_other c t Hc). cbn [Reference.delete_gaps andb].
    apply Z.eqb_neq in Hc. rewrite Hc. cbn [andb].
    cbn [tidy_after] in H. destruct (c =? SP);
      apply andb_prop in H; destruct H as [_ H]; rewrite (IH _ H); reflexivity.
  - rewrite (squeeze_open t Hnone). cbn [Reference.delete_gaps andb].
    cbn [tidy_after] in H. change (GT =? SP) with false in H.
    change (IsSpace GT) with false in H. cbn [negb andb] in H.
    rewrite Z.eqb_refl, (closes_gap_tidy t false H), Hnone. cbn [andb].
    rewrite (IH _ H). reflexivity.
  - rewrite (squeeze_gap w r Hw). cbn [Reference.delete_gaps andb].
    rewrite Z.eqb_refl, (closes_gap_run w r Hw). cbn [andb].
    rewrite (delete_gaps_run w r Hw).
    cbn [tidy_after] in H. change (GT =? SP) with false in H.
    change (IsSpace GT) with false in H. cbn [negb andb] in H.
    apply (tidy_after_gap w r false Hw) in H. rewrite (IH _ H). reflexivity.
Qed.

(** C5.  [normalizeHTML] is the four steps of the specification, in
    order, on every input. *)
Theorem normalizeHTML_refines_reference (raw : gostring) :
  normalizeHTML raw = Reference.normalize raw.
Proof.
  unfold normalizeHTML, Reference.normalize, Reference.trim. cbv zeta.
  rewrite <- ReplaceAll_CRLF_reference, <- TrimLeftSpace_reference,
    <- TrimRightSpace_reference.
  fold (TrimSpace (ReplaceAll_CRLF raw)). rewrite collapse_runs_TrimSpace.
  change (lit " ") with [SP].
  pose proof (tidy_Join_Fields (TrimSpace (ReplaceAll_CRLF raw))) as Ht.
  destruct (Join (Fields (TrimSpace (ReplaceAll_CRLF raw))) [SP]) as [|c t] eqn:E;
    [reflexivity|].
  symmetry. apply (delete_gaps_tidy (c :: t) true Ht).
Qed.

(** ** Differences the normaliser ignores *)

Lemma same_runs_fields (a b : gostring) :
  same_runs a b -> forall cur, fields_go cur a = fields_go cur b.
Proof.
  induction 1 as [w1 w2 H1 H2 | c a b Hc _ IH | w1 w2 a b N1 N2 H1 H2 _ IH]; intros cur.
  - rewrite (fields_go_blank w1 cur H1), (fields_go_blank w2 cur H2). reflexivity.
  - cbn [fields_go]. rewrite Hc. apply IH.
  - rewrite (fields_go_run w1 a cur H1 N1), (fields_go_run w2 b cur H2 N2), IH.
    reflexivity.
Qed.

Lemma Join_app (done : list gostring) (sep : gostring) :
  exists pre, forall l, l <> [] -> Join (done ++ l) sep = pre ++ Join l sep.
Proof.
  induction done as [|a done [pre IH]].
  - exists []. reflexivity.
  - exists (a ++ sep ++ pre). intros l Hl. cbn [app Join].
    destruct (done ++ l) as [|x xs] eqn:E.
    + apply app_eq_nil in E. destruct E as [_ E]. now elim Hl.
    + rewrite <- E, (IH l Hl), <- !app_assoc. reflexivity.
Qed.

Lemma Join_cons (rest : list gostring) (sep : gostring) :
  exists post, forall z, Join (z :: rest) sep = z ++ post.
Proof.
  destruct rest as [|x xs].
  - exists []. intros z. cbn [Join]. rewrite app_nil_r. reflexivity.
  - exists (sep ++ Join (x :: xs) sep). reflexivity.
Qed.

(** The white space of one gap between [>] and [<] does not count. *)
Lemma normalizeHTML_gap (p w q : gostring) :
  blank w = true ->
  normalizeHTML (p ++ GT :: w ++ LT :: q) = normalizeHTML (p ++ GT :: LT :: q).
Proof.
  intros Hw. destruct w as [|c w]; [reflexivity|].
  rewrite !normalizeHTML_fields. unfold Fields.
  destruct (fields_go_app p []) as [done [cur H]]. rewrite !H.
  cbn [fields_go]. change (IsSpace GT) with false. change (IsSpace LT) with false.
  cbv iota. rewrite fields_go_run by (exact Hw || discriminate).
  rewrite close_field_cons by (destruct cur; discriminate).
  cbn [fields_go]. change (IsSpace LT) with false. cbv iota. cbn [app].
  destruct (fields_go_extend q [LT]) as [tok [rest Hx]]; [discriminate|].
  rewrite (Hx (cur ++ [GT])). rewrite (Hx [] : fields_go [LT] q = _).
  destruct (Join_app done [SP]) as [pre Hpre]. rewrite !Hpre by discriminate.
  destruct (Join_cons rest [SP]) as [post Hpost].
  change (Join ((cur ++ [GT]) :: ([] ++ [LT] ++ tok) :: rest) [SP])
    with ((cur ++ [GT]) ++ [SP] ++ Join ((LT :: tok) :: rest) [SP]).
  rewrite !Hpost. rewrite <- !app_assoc. cbn [app].
  rewrite !app_assoc.
  apply (squeeze_far_gap (pre ++ cur) [SP] (tok ++ post)). reflexivity.
Qed.

Lemma differ_only_normalizeHTML (a b : gostring) :
  differ_only a b -> normalizeHTML a = normalizeHTML b.
Proof.
  intros [w1 w2 a' b' H1 H2 Hr | p w1 w2 q H1 H2 | p q].
  - rewrite !normalizeHTML_fields. unfold Fields.
    rewrite (fields_go_leading w1 a' H1), (fields_go_leading w2 b' H2).
    rewrite (same_runs_fields a' b' Hr). reflexivity.
  - rewrite (normalizeHTML_gap p w1 q H1), (normalizeHTML_gap p w2 q H2). reflexivity.
  - rewrite !normalizeHTML_fields. unfold Fields.
    destruct (fields_go_app p []) as [done [cur H]]. rewrite !H. reflexivity.
Qed.

(** C7.  Two texts that differ only in white space runs, in white space
    between a [>] and the following [<], or in CRLF against LF line
    endings normalise to the same text. *)
Theorem normalizeHTML_insignificant (a b : gostring) :
  insignificant a b -> normalizeHTML a = normalizeHTML b.
Proof.
  induction 1 as [a b H | a | a b _ IH | a b c _ IH1 _ IH2].
  - apply differ_only_normalizeHTML, H.
  - reflexivity.
  - symmetry. exact IH.
  - rewrite IH1. exact IH2.
Qed.

Lemma normalizeHTML_insignificant_witness :
  normalizeHTML (lit "<p>a  b</p>" ++ [CR; LF] ++ lit " <i>c</i>")
  = normalizeHTML (lit "<p>a b</p><i>c</i>").
Proof.
  apply normalizeHTML_insignificant.
  apply rst_trans with (y := lit "<p>a  b</p>" ++ [LF] ++ lit " <i>c</i>").
  { apply rst_step. exact (differ_line_end (lit "<p>a  b</p>") (lit " <i>c</i>")). }
  apply rst_trans with (y := lit "<p>a  b</p><i>c</i>").
  { apply rst_step.
    exact (differ_gap (lit "<p>a  b</p") [LF; SP] [] (lit "i>c</i>") eq_refl eq_refl). }
  apply rst_step.
  apply (differ_runs [] [] (lit "<p>a  b</p><i>c</i>") (lit "<p>a b</p><i>c</i>"));
    [reflexivity | reflexivity |].
  do 4 (apply same_rune; [reflexivity|]).
  apply (same_run [SP; SP] [SP] (lit "b</p><i>c</i>") (lit "b</p><i>c</i>"));
    try discriminate; try reflexivity.
  do 13 (apply same_rune; [reflexivity|]).
  apply same_end; reflexivity.
Defined.

(** * Further properties of the code *)

(** ** The identifier written by [%d] and read back by [%d] *)

Lemma lit_String (a : ascii) (s : string) :
  lit (String a s) = rune_of_ascii a :: lit s.
Proof. reflexivity. Qed.

Lemma scan_digits_digits_of (d : Decimal.uint) (rest : gostring) :
  scan_digits (digits_of d ++ rest) = digits_of d ++ scan_digits rest.
Proof.
  unfold digits_of. induction d; cbn [NilEmpty.string_of_uint];
    rewrite ?lit_String; cbn [app scan_digits];
    try (change (is_digit (rune_of_ascii _)) with true; cbv iota; rewrite IHd);
    reflexivity.
Qed.

Lemma fold_digits_acc (d : Decimal.uint) (acc : positive) (z : Z) :
  z = Z.pos acc ->
  fold_left (fun a c => a * 10 + (c - 48)) (digits_of d) z
    = Z.pos (Pos.of_uint_acc d acc).
Proof.
  unfold digits_of. revert acc z.
  induction d; intros acc z Hz; cbn [NilEmpty.string_of_uint Pos.of_uint_acc];
    rewrite ?lit_String; cbn [fold_left];
    [exact Hz | apply IHd; subst z; vm_compute (rune_of_ascii _); lia ..].
Qed.

Lemma digits_value_digits_of (d : Decimal.uint) :
  digits_value (digits_of d) = Z.of_uint d.
Proof.
  unfold digits_value, Z.of_uint, digits_of.
  induction d; cbn [NilEmpty.string_of_uint Pos.of_uint];
    rewrite ?lit_String; cbn [fold_left];
    [reflexivity | exact IHd | apply (fold_digits_acc d); reflexivity ..].
Qed.

Lemma digits_of_head (p : positive) :
  exists c t, digits_of (Pos.to_uint p) = c :: t /\ is_digit c = true.
Proof.
  pose proof (DecimalPos.Unsigned.to_uint_nonnil p) as Hne.
  unfold digits_of. destruct (Pos.to_uint p); [now elim Hne | ..];
    cbn [NilEmpty.string_of_uint]; rewrite lit_String;
    eexists; eexists; (split; [reflexivity | reflexivity]).
Qed.

Lemma is_digit_plain (c : rune) :
  is_digit c = true ->
  (c =? LF) = false /\ IsSpace c = false /\ (c =? 45) = false /\ (c =? 43) = false.
Proof.
  unfold is_digit. intros H. apply andb_prop in H. destruct H as [H1 H2].
  apply Z.leb_le in H1. apply Z.leb_le in H2.
  repeat split; try (apply Z.eqb_neq; unfold LF; lia).
  unfold IsSpace.
  replace ((0 <=? c) && (c <=? 255)) with true
    by (symmetry; apply andb_true_intro; split; apply Z.leb_le; lia).
  repeat (apply orb_false_intro); apply Z.eqb_neq; lia.
Qed.

(** The scan of an unsigned token: digits first, then anything that is
    not a digit. *)
Lemma scanInt_unsigned (p : positive) (rest : gostring) :
  scan_digits rest = [] ->
  Z.pos p <= max_int64 ->
  scanInt (digits_of (Pos.to_uint p) ++ rest) = Some (Z.pos p).
Proof.
  intros Hrest Hmax.
  destruct (digits_of_head p) as [c [t [E Hc]]].
  destruct (is_digit_plain c Hc) as [Hlf [Hsp [Hm Hp]]].
  pose proof (scan_digits_digits_of (Pos.to_uint p) rest) as Hscan.
  pose proof (digits_value_digits_of (Pos.to_uint p)) as Hval.
  unfold Z.of_uint in Hval. rewrite DecimalPos.Unsigned.of_to in Hval.
  rewrite Hrest, app_nil_r in Hscan. rewrite E in *.
  unfold scanInt. cbn [app SkipSpace]. rewrite Hlf, Hsp.
  cbn [accept_sign]. rewrite Hm, Hp.
  change (c :: t ++ rest) with ((c :: t) ++ rest). rewrite Hscan, Hval.
  cbn [Z.of_N].
  replace ((min_int64 <=? Z.pos p) && (Z.pos p <=? max_int64)) with true; [reflexivity|].
  symmetry. apply andb_true_intro. split; apply Z.leb_le; [unfold min_int64; lia | exact Hmax].
Qed.

Lemma scanInt_negative (p : positive) (rest : gostring) :
  scan_digits rest = [] ->
  min_int64 <= Z.neg p ->
  scanInt (45 :: digits_of (Pos.to_uint p) ++ rest) = Some (Z.neg p).
Proof.
  intros Hrest Hmin.
  destruct (digits_of_head p) as [c [t [E Hc]]].
  pose proof (scan_digits_digits_of (Pos.to_uint p) rest) as Hscan.
  pose proof (digits_value_digits_of (Pos.to_uint p)) as Hval.
  unfold Z.of_uint in Hval. rewrite DecimalPos.Unsigned.of_to in Hval.
  rewrite Hrest, app_nil_r in Hscan. rewrite E in *.
  unfold scanInt. cbn [SkipSpace]. change (45 =? LF) with false.
  change (IsSpace 45) with false. cbv iota.
  cbn [accept_sign]. change (45 =? 45) with true. cbv iota.
  rewrite Hscan, Hval. cbn [Z.of_N Z.opp].
  replace ((min_int64 <=? Z.neg p) && (Z.neg p <=? max_int64)) with true; [reflexivity|].
  symmetry. apply andb_true_intro. split; apply Z.leb_le; [exact Hmin | unfold max_int64; lia].
Qed.

(** The integer a handler reads back from a printed id, followed or not
    by runes that do not start with a digit. *)
Lemma parse_id_Sprintf_d (n : Z) (rest : gostring) :
  min_int64 <= n <= max_int64 -> scan_digits rest = [] ->
  parse_id (Sprintf_d n ++ rest) = n.
Proof.
  intros [Hmin Hmax] Hrest. unfold parse_id, Sprintf_d.
  destruct n as [|p|p].
  - change (lit (NilZero.string_of_int (Z.to_int 0))) with [48].
    unfold scanInt. cbn [app SkipSpace]. change (48 =? LF) with false.
    change (IsSpace 48) with false. cbv iota. cbn [accept_sign].
    change (48 =? 45) with false. change (48 =? 43) with false. cbv iota.
    cbn [scan_digits]. change (is_digit 48) with true. cbv iota.
    rewrite Hrest. reflexivity.
  - cbn [Z.to_int NilZero.string_of_int]. unfold NilZero.string_of_uint.
    pose proof (DecimalPos.Unsigned.to_uint_nonnil p) as Hne.
    replace (lit match Pos.to_uint p with
                 | Decimal.Nil => "0"%string
                 | _ => NilEmpty.string_of_uint (Pos.to_uint p)
                 end) with (digits_of (Pos.to_uint p))
      by (unfold digits_of; destruct (Pos.to_uint p); [now elim Hne | reflexivity ..]).
    rewrite (scanInt_unsigned p rest Hrest Hmax). reflexivity.
  - cbn [Z.to_int NilZero.string_of_int]. unfold NilZero.string_of_uint.
    pose proof (DecimalPos.Unsigned.to_uint_nonnil p) as Hne.
    rewrite lit_String. change (rune_of_ascii "-") with 45.
    replace (lit match Pos.to_uint p with
                 | Decimal.Nil => "0"%string
                 | _ => NilEmpty.string_of_uint (Pos.to_uint p)
                 end) with (digits_of (Pos.to_uint p))
      by (unfold digits_of; destruct (Pos.to_uint p); [now elim Hne | reflexivity ..]).
    exact (f_equal (fun o => match o with Some v => v | None => 0 end)
             (scanInt_negative p rest Hrest Hmin)).
Qed.

(** X1.  An id printed with [%d] from an [int64] parses back, with [%d],
    to the same integer. *)
Theorem printed_id_parses_back (n : Z) :
  min_int64 <= n <= max_int64 -> parse_id (Sprintf_d n) = n.
Proof.
  intros Hn. rewrite <- (app_nil_r (Sprintf_d n)).
  apply parse_id_Sprintf_d; [exact Hn | reflexivity].
Qed.

Lemma printed_id_parses_back_witness :
  parse_id (Sprintf_d (-9223372036854775808)) = -9223372036854775808.
Proof.
  apply printed_id_parses_back. unfold min_int64, max_int64. lia.
Defined.

(** X2.  The [%d] scan stops at the first rune that is not a digit and
    says nothing about the rest: an id made of a printed integer followed
    by such runes addresses the same template as the printed integer. *)
Theorem parse_id_ignores_suffix (n : Z) (c : rune) (rest : gostring) :
  min_int64 <= n <= max_int64 -> is_digit c = false ->
  parse_id (Sprintf_d n ++ c :: rest) = parse_id (Sprintf_d n).
Proof.
  intros Hn Hc.
  rewrite (parse_id_Sprintf_d n (c :: rest) Hn) by (cbn [scan_digits]; rewrite Hc; reflexivity).
  rewrite <- (app_nil_r (Sprintf_d n)).
  symmetry. apply parse_id_Sprintf_d; [exact Hn | reflexivity].
Qed.

Lemma parse_id_ignores_suffix_witness :
  parse_id (Sprintf_d 7 ++ lit "-draft") = parse_id (Sprintf_d 7).
Proof.
  apply (parse_id_ignores_suffix 7 45 (lit "draft")); [|reflexivity].
  unfold min_int64, max_int64. lia.
Defined.

Lemma Sprintf_d_pos (p : positive) :
  Sprintf_d (Z.pos p) = digits_of (Pos.to_uint p).
Proof.
  unfold Sprintf_d, digits_of. cbn [Z.to_int NilZero.string_of_int].
  unfold NilZero.string_of_uint.
  pose proof (DecimalPos.Unsigned.to_uint_nonnil p) as Hne.
  destruct (Pos.to_uint p); [now elim Hne | reflexivity ..].
Qed.

Lemma Sprintf_d_neg (p : positive) :
  Sprintf_d (Z.neg p) = 45 :: digits_of (Pos.to_uint p).
Proof.
  unfold Sprintf_d, digits_of. cbn [Z.to_int NilZero.string_of_int].
  unfold NilZero.string_of_uint. rewrite lit_String.
  pose proof (DecimalPos.Unsigned.to_uint_nonnil p) as Hne.
  destruct (Pos.to_uint p); [now elim Hne | reflexivity ..].
Qed.

Lemma Sprintf_d_nonempty (n : Z) : Sprintf_d n <> [].
Proof.
  destruct n as [|p|p].
  - discriminate.
  - rewrite Sprintf_d_pos. destruct (digits_of_head p) as [c [t [E _]]].
    rewrite E. discriminate.
  - rewrite Sprintf_d_neg. discriminate.
Qed.

(** A number too large for [int64] is a scan error. *)
Lemma scanInt_above (p : positive) (rest : gostring) :
  scan_digits rest = [] ->
  max_int64 < Z.pos p ->
  scanInt (digits_of (Pos.to_uint p) ++ rest) = None.
Proof.
  intros Hrest Hmax.
  destruct (digits_of_head p) as [c [t [E Hc]]].
  destruct (is_digit_plain c Hc) as [Hlf [Hsp [Hm Hp]]].
  pose proof (scan_digits_digits_of (Pos.to_uint p) rest) as Hscan.
  pose proof (digits_value_digits_of (Pos.to_uint p)) as Hval.
  unfold Z.of_uint in Hval. rewrite DecimalPos.Unsigned.of_to in Hval.
  rewrite Hrest, app_nil_r in Hscan. rewrite E in *.
  unfold scanInt. cbn [app SkipSpace]. rewrite Hlf, Hsp.
  cbn [accept_sign]. rewrite Hm, Hp.
  change (c :: t ++ rest) with ((c :: t) ++ rest). rewrite Hscan, Hval.
  cbn [Z.of_N].
  replace (Z.pos p <=? max_int64) with false; [rewrite andb_false_r; reflexivity|].
  symmetry. apply Z.leb_gt. exact Hmax.
Qed.

Lemma scanInt_below (p : positive) (rest : gostring) :
  scan_digits rest = [] ->
  Z.neg p < min_int64 ->
  scanInt (45 :: digits_of (Pos.to_uint p) ++ rest) = None.
Proof.
  intros Hrest Hmin.
  destruct (digits_of_head p) as [c [t [E Hc]]].
  pose proof (scan_digits_digits_of (Pos.to_uint p) rest) as Hscan.
  pose proof (digits_value_digits_of (Pos.to_uint p)) as Hval.
  unfold Z.of_uint in Hval. rewrite DecimalPos.Unsigned.of_to in Hval.
  rewrite Hrest, app_nil_r in Hscan. rewrite E in *.
  unfold scanInt. cbn [SkipSpace]. change (45 =? LF) with false.
  change (IsSpace 45) with false. cbv iota.
  cbn [accept_sign]. change (45 =? 45) with true. cbv iota.
  rewrite Hscan, Hval. cbn [Z.of_N Z.opp].
  replace (min_int64 <=? Z.neg p) with false; [reflexivity|].
  symmetry. apply Z.leb_gt. exact Hmin.
Qed.

(** X3.  The integer sent to the service is always an [int64], and the
    scan neither saturates nor wraps: a text without a token for [%d] is
    read as 0, and so is a printed number outside the range of [int64],
    whatever follows it. *)
Theorem parse_id_in_range (id : gostring) (n : Z) (rest : gostring) :
  min_int64 <= parse_id id <= max_int64
  /\ (has_integer_token id = false -> parse_id id = 0)
  /\ (scan_digits rest = [] -> n < min_int64 \/ max_int64 < n ->
      parse_id (Sprintf_d n ++ rest) = 0).
Proof.
  split; [|split].
  - unfold parse_id, scanInt.
    destruct (SkipSpace id) as [s1|]; [|unfold min_int64, max_int64; lia].
    destruct (accept_sign s1) as [neg s2].
    destruct (scan_digits s2) as [|d ds]; [unfold min_int64, max_int64; lia|].
    destruct ((min_int64 <=? (if neg then - digits_value (d :: ds) else digits_value (d :: ds)))
              && ((if neg then - digits_value (d :: ds) else digits_value (d :: ds)) <=? max_int64))
      eqn:E; [|unfold min_int64, max_int64; lia].
    apply andb_prop in E. destruct E as [E1 E2].
    apply Z.leb_le in E1. apply Z.leb_le in E2. split; assumption.
  - intros H. unfold parse_id. rewrite (scanInt_no_token id H). reflexivity.
  - intros Hrest Hn. unfold parse_id. destruct n as [|p|p].
    + unfold min_int64, max_int64 in Hn. lia.
    + rewrite Sprintf_d_pos, scanInt_above; [reflexivity | exact Hrest|].
      destruct Hn as [Hn | Hn]; [unfold min_int64 in Hn; lia | exact Hn].
    + rewrite Sprintf_d_neg.
      change ((45 :: digits_of (Pos.to_uint p)) ++ rest)
        with (45 :: digits_of (Pos.to_uint p) ++ rest).
      rewrite scanInt_below; [reflexivity | exact Hrest|].
      destruct Hn as [Hn | Hn]; [exact Hn | unfold max_int64 in Hn; lia].
Qed.

Lemma parse_id_in_range_witness :
  parse_id (lit "template") = 0
  /\ parse_id (Sprintf_d 9223372036854775808 ++ lit "x") = 0.
Proof.
  destruct (parse_id_in_range (lit "template") 9223372036854775808 (lit "x"))
    as [_ [Htok Hbig]].
  split; [apply Htok; reflexivity|].
  apply Hbig; [reflexivity|]. right. unfold max_int64. lia.
Defined.

(** ** How the handlers compose *)

(** X4.  The state [Create] stores addresses the template the service
    created: its id parses back to the integer id of the reply. *)
Theorem Create_state_addresses_template
    (api : EmailAPI) (now : nat -> gostring)
    (plan m : EmailTemplateResourceModel) (r : Response) :
  Create api now plan = Returned r ->
  resp_State r = Some m ->
  exists t,
    reply_template (CreateEmailTemplate api (request_of plan)) = Some t
    /\ (min_int64 <= et_ID t <= max_int64 ->
        parse_id (ValueString (ID m)) = et_ID t).
Proof.
  unfold Create. intros Hrun Hm.
  destruct (reply_template _) as [t|]; [|discriminate Hrun].
  injection Hrun as <-. cbn [resp_State] in Hm. injection Hm as <-.
  exists t. split; [reflexivity|]. intros Ht. cbn [ID ValueString].
  rewrite <- (app_nil_r (Sprintf_d (et_ID t))).
  apply parse_id_Sprintf_d; [exact Ht | reflexivity].
Qed.

Lemma Create_state_addresses_template_witness :
  exists m,
    Create (constant_api ok_reply removed_ok) wall_clock welcome_plan
      = Returned (mkResponse [] (Some m))
    /\ parse_id (ValueString (ID m)) = 7.
Proof.
  eexists. split; [reflexivity|].
  destruct (Create_state_addresses_template (constant_api ok_reply removed_ok)
              wall_clock welcome_plan _ _ eq_refl eq_refl) as [t [Ht Hid]].
  cbn in Ht. injection Ht as <-. apply Hid.
  cbn. unfold min_int64, max_int64. lia.
Defined.

(** X5.  A [Read] the service answers without error overwrites every
    attribute: two prior states whose ids parse to the same integer are
    refreshed to the same result. *)
Theorem Read_ignores_prior_attributes
    (api : EmailAPI) (Quote : gostring -> gostring)
    (s1 s2 : EmailTemplateResourceModel) :
  parse_id (ValueString (ID s1)) = parse_id (ValueString (ID s2)) ->
  reply_err (GetEmailTemplate api (parse_id (ValueString (ID s1)))) = None ->
  Read api Quote s1 = Read api Quote s2.
Proof.
  intros Hid Herr. unfold Read. rewrite <- Hid, Herr. reflexivity.
Qed.

(** X6.  Import then Read.  [ImportState] stores a non-empty text
    verbatim as the id of a state that holds nothing else, and stores no
    state for the empty text, without a diagnostic in either case.  When
    the text is a printed [int64], possibly followed by runes that do not
    start with a digit, and the service knows the template, the refresh of
    the imported state gives what it gives for a state stored under the
    printed integer. *)
Theorem Import_then_Read
    (api : EmailAPI) (Quote : gostring -> gostring)
    (id : gostring) (n : Z) (rest created : gostring) :
  (id <> [] -> ImportState id = mkResponse [] (Some (only_id id)))
  /\ ImportState [] = mkResponse [] None
  /\ (min_int64 <= n <= max_int64 ->
      scan_digits rest = [] ->
      reply_err (GetEmailTemplate api n) = None ->
      ImportState (Sprintf_d n ++ rest)
        = mkResponse [] (Some (only_id (Sprintf_d n ++ rest)))
      /\ Read api Quote (only_id (Sprintf_d n ++ rest))
         = Read api Quote (stored_model (Sprintf_d n) created)).
Proof.
  assert (Hverbatim : forall x, x <> [] -> ImportState x = mkResponse [] (Some (only_id x))).
  { intros x Hx. unfold ImportState. change (lit "") with (@nil rune).
    apply gostring_eqb_neq in Hx. rewrite Hx. reflexivity. }
  split; [apply Hverbatim|]. split; [reflexivity|].
  intros Hn Hrest Herr. split.
  - apply Hverbatim. intros E. apply app_eq_nil in E. destruct E as [E _].
    exact (Sprintf_d_nonempty n E).
  - unfold Read. cbn [ID ValueString stored_model only_id].
    rewrite (parse_id_Sprintf_d n rest Hn Hrest).
    pose proof (parse_id_Sprintf_d n [] Hn eq_refl) as H0.
    rewrite app_nil_r in H0. rewrite H0, Herr. reflexivity.
Qed.

Lemma Import_then_Read_witness :
  ImportState (lit "template seven") = mkResponse [] (Some (only_id (lit "template seven")))
  /\ Read (constant_api ok_reply removed_ok) (fun q => q) (only_id (Sprintf_d 7 ++ lit " (welcome)"))
     = Read (constant_api ok_reply removed_ok) (fun q => q) (stored_model (Sprintf_d 7) (lit "")).
Proof.
  destruct (Import_then_Read (constant_api ok_reply removed_ok) (fun q => q)
              (lit "template seven") 7 (lit " (welcome)") (lit ""))
    as [Hv [_ Hr]].
  split; [apply Hv; discriminate|].
  apply Hr; try reflexivity. unfold min_int64, max_int64. lia.
Defined.

Lemma Read_ignores_prior_attributes_witness :
  Read (constant_api ok_reply removed_ok) (fun q => q) (stored_model (lit "7") (lit "x"))
  = Read (constant_api ok_reply removed_ok) (fun q => q) (stored_model (lit "+7 ") (lit "")).
Proof.
  apply Read_ignores_prior_attributes; reflexivity.
Defined.

Lemma normalizeHTML_fixed (a : gostring) :
  normalizeHTML (normalizeHTML a) = normalizeHTML a.
Proof.
  rewrite (normalizeHTML_fields (normalizeHTML a)), (normalizeHTML_fields a).
  rewrite (Join_Fields_tidy _ (tidy_squeeze _ (tidy_Join_Fields a))).
  apply squeeze_idempotent.
Qed.

(** What a handler that returns without an error diagnostic has stored:
    the attributes of the reply, the HTML normalised, two known
    timestamps. *)
Lemma stored_state_shape
    (api : EmailAPI) (now : nat -> gostring) (Quote : gostring -> gostring)
    (plan state m : EmailTemplateResourceModel) (r : Response) :
  Create api now plan = Returned r
  \/ (Read api Quote state = Returned r /\ HasError (resp_Diagnostics r) = false)
  \/ (Update api now plan state = Returned r /\ HasError (resp_Diagnostics r) = false) ->
  resp_State r = Some m ->
  exists t created updated,
    m = mkModel (StringValue (Sprintf_d (et_ID t))) (StringValue (et_Name t))
          (StringValue (et_From t)) (StringValue (et_ReplyTo t))
          (StringValue (et_Subject t)) (StringValue (et_Preheader t))
          (StringValue (normalizeHTML (et_HTML t))) (BoolValue (et_IsHTMLEditable t))
          (StringValue (et_LandingPageID t)) (StringValue (et_ImagePreviewURL t))
          (StringValue created) (StringValue updated).
Proof.
  intros [Hrun | [[Hrun Hok] | [Hrun Hok]]] Hm.
  - unfold Create in Hrun. destruct (reply_template _) as [t|]; [|discriminate Hrun].
    injection Hrun as <-. injection Hm as <-. exists t. eexists. eexists. reflexivity.
  - unfold Read in Hrun. destruct (reply_err _).
    + injection Hrun as <-. discriminate Hok.
    + destruct (reply_template _) as [t|]; [|discriminate Hrun].
      injection Hrun as <-. injection Hm as <-. exists t. eexists. eexists. reflexivity.
  - unfold Update in Hrun. destruct (reply_err _).
    + injection Hrun as <-. discriminate Hok.
    + destruct (reply_template _) as [t|]; [|discriminate Hrun].
      injection Hrun as <-. injection Hm as <-. exists t.
      destruct (CreatedAt state) as [| |c]; cbn [ValueString];
        try (eexists; eexists; reflexivity).
      destruct (gostring_eqb c []); eexists; eexists; reflexivity.
Qed.

(** X7.  After a [Create] that returns, and after a [Read] or an [Update]
    that returns without an error, no attribute of the stored state is
    null or unknown. *)
Theorem handlers_store_known_state
    (api : EmailAPI) (now : nat -> gostring) (Quote : gostring -> gostring)
    (plan state m : EmailTemplateResourceModel) (r : Response) :
  Create api now plan = Returned r
  \/ (Read api Quote state = Returned r /\ HasError (resp_Diagnostics r) = false)
  \/ (Update api now plan state = Returned r /\ HasError (resp_Diagnostics r) = false) ->
  resp_State r = Some m ->
  fully_known m = true.
Proof.
  intros Hrun Hm.
  destruct (stored_state_shape api now Quote plan state m r Hrun Hm)
    as [t [created [updated ->]]].
  reflexivity.
Qed.

Lemma handlers_store_known_state_witness :
  exists m,
    Update (constant_api ok_reply removed_ok) wall_clock welcome_plan
      (stored_model (lit "7") (lit "")) = Returned (mkResponse [] (Some m))
    /\ fully_known m = true.
Proof.
  eexists. split; [reflexivity|].
  eapply (handlers_store_known_state (constant_api ok_reply removed_ok) wall_clock
           (fun q => q) welcome_plan (stored_model (lit "7") (lit "")) _
           (mkResponse [] (Some _))); [|reflexivity].
  right. right. split; reflexivity.
Defined.

(** X8.  The HTML a handler stores is a fixed point of the normaliser. *)
Theorem stored_html_is_normal
    (api : EmailAPI) (now : nat -> gostring) (Quote : gostring -> gostring)
    (plan state m : EmailTemplateResourceModel) (r : Response) :
  Create api now plan = Returned r
  \/ (Read api Quote state = Returned r /\ HasError (resp_Diagnostics r) = false)
  \/ (Update api now plan state = Returned r /\ HasError (resp_Diagnostics r) = false) ->
  resp_State r = Some m ->
  normalizeHTML (ValueString (Html m)) = ValueString (Html m).
Proof.
  intros Hrun Hm.
  destruct (stored_state_shape api now Quote plan state m r Hrun Hm)
    as [t [created [updated ->]]].
  cbn [Html ValueString]. apply normalizeHTML_fixed.
Qed.

Lemma stored_html_is_normal_witness :
  exists m,
    Create (constant_api ok_reply removed_ok) wall_clock welcome_plan
      = Returned (mkResponse [] (Some m))
    /\ normalizeHTML (ValueString (Html m)) = ValueString (Html m).
Proof.
  eexists. split; [reflexivity|].
  eapply (stored_html_is_normal (constant_api ok_reply removed_ok) wall_clock
           (fun q => q) welcome_plan welcome_plan _ (mkResponse [] (Some _)));
    [left; reflexivity | reflexivity].
Defined.

(** X9.  [Delete] always returns, in one of two ways: the state removed
    and no diagnostic, or the state kept and exactly one error. *)
Theorem Delete_outcome (api : EmailAPI) (data : EmailTemplateResourceModel) :
  exists r,
    Delete api data = Returned r
    /\ ((resp_State r = None /\ resp_Diagnostics r = [])
        \/ (resp_State r = Some data /\ exists d, resp_Diagnostics r = [d])).
Proof.
  unfold Delete. destruct (removed_err _) as [err|].
  - destruct (match removed_http _ with Some h => StatusCode h =? 404 | None => false end).
    + eexists. split; [reflexivity|]. left. split; reflexivity.
    + eexists. split; [reflexivity|]. right. split; [reflexivity|].
      eexists. reflexivity.
  - eexists. split; [reflexivity|]. left. split; reflexivity.
Qed.

(** X10.  A [Read] or an [Update] whose remote call fails returns one
    error diagnostic, ending with the text of the remote error, and
    leaves the prior state as it was. *)
Theorem failed_call_keeps_state
    (api : EmailAPI) (now : nat -> gostring) (Quote : gostring -> gostring)
    (plan state : EmailTemplateResourceModel) (err : gostring) :
  (reply_err (GetEmailTemplate api (parse_id (ValueString (ID state)))) = Some err ->
   exists d pre, Read api Quote state = Returned (mkResponse [d] (Some state))
     /\ diag_detail d = pre ++ err)
  /\ (reply_err (UpdateEmailTemplate api (parse_id (ValueString (ID state)))
                   (request_of plan)) = Some err ->
      exists d pre, Update api now plan state = Returned (mkResponse [d] (Some state))
        /\ diag_detail d = pre ++ err).
Proof.
  split; intros H.
  - unfold Read. rewrite H. eexists. eexists. split; [reflexivity|].
    cbn [diag_detail]. rewrite !app_assoc. reflexivity.
  - unfold Update. rewrite H. eexists. eexists. split; [reflexivity|]. reflexivity.
Qed.

Lemma failed_call_keeps_state_witness :
  exists d,
    Read (constant_api server_error removed_ok) (fun q => q) (stored_model (lit "7") (lit ""))
    = Returned (mkResponse [d] (Some (stored_model (lit "7") (lit "")))).
Proof.
  destruct (proj1 (failed_call_keeps_state (constant_api server_error removed_ok) wall_clock
                     (fun q => q) welcome_plan (stored_model (lit "7") (lit ""))
                     (lit "500 Internal Server Error")) eq_refl) as [d [pre [H _]]].
  exists d. exact H.
Defined.

(** X11.  The creation stamp survives updates: an [Update] of the state
    stored by [Create] keeps the [createdAt] that [Create] took from the
    clock, as long as that text is not empty, and takes [updatedAt] from
    its own clock. *)
Theorem createdAt_survives_update
    (api api' : EmailAPI) (now now' : nat -> gostring)
    (plan plan' m0 m1 : EmailTemplateResourceModel) (r0 r1 : Response) :
  Create api now plan = Returned r0 ->
  resp_State r0 = Some m0 ->
  now 0%nat <> [] ->
  Update api' now' plan' m0 = Returned r1 ->
  HasError (resp_Diagnostics r1) = false ->
  resp_State r1 = Some m1 ->
  CreatedAt m1 = StringValue (now 0%nat) /\ UpdatedAt m1 = StringValue (now' 0%nat).
Proof.
  intros Hc Hm0 Hnow Hu Hok Hm1.
  unfold Create in Hc. destruct (reply_template _) as [t|]; [|discriminate Hc].
  injection Hc as <-. cbn [resp_State] in Hm0. injection Hm0 as <-.
  unfold Update in Hu. destruct (reply_err _); [injection Hu as <-; discriminate Hok|].
  destruct (reply_template _) as [t'|]; [|discriminate Hu].
  injection Hu as <-. cbn [resp_State] in Hm1. injection Hm1 as <-.
  cbn [CreatedAt UpdatedAt ValueString].
  apply gostring_eqb_neq in Hnow. rewrite Hnow. split; reflexivity.
Qed.

Lemma createdAt_survives_update_witness :
  exists m0 m1,
    Create (constant_api ok_reply removed_ok) wall_clock welcome_plan
      = Returned (mkResponse [] (Some m0))
    /\ Update (constant_api ok_reply removed_ok) (fun _ => lit "later") welcome_plan m0
       = Returned (mkResponse [] (Some m1))
    /\ CreatedAt m1 = StringValue (wall_clock 0%nat).
Proof.
  eexists. eexists. split; [reflexivity|]. split; [reflexivity|].
  eapply (createdAt_survives_update (constant_api ok_reply removed_ok)
           (constant_api ok_reply removed_ok) wall_clock (fun _ => lit "later")
           welcome_plan welcome_plan _ _ (mkResponse [] (Some _)) (mkResponse [] (Some _)));
    try reflexivity.
  vm_compute. discriminate.
Defined.

(** ** The plan modifier and the stored text *)

(** X12.  Whatever the modifier returns normalises to what the planned
    value normalises to: suppression never changes the meaning of a plan. *)
Theorem PlanModifyString_keeps_meaning (req : Modifier.StringRequest) :
  Modifier.normalize (ValueString (Modifier.PlanModifyString req))
  = Modifier.normalize (ValueString (Modifier.PlanValue req)).
Proof.
  unfold Modifier.PlanModifyString.
  destruct (IsNull (Modifier.StateValue req) || IsNull (Modifier.PlanValue req));
    [reflexivity|].
  cbv zeta.
  destruct (gostring_eqb (Modifier.normalize (ValueString (Modifier.StateValue req)))
              (Modifier.normalize (ValueString (Modifier.PlanValue req)))) eqn:E;
    [|reflexivity].
  apply gostring_eqb_eq in E. exact E.
Qed.

(** X13.  No diff after a refresh: when the configured HTML normalises to
    the same text as the HTML the service returned, the modifier keeps
    the value that [Read] stored. *)
Theorem no_diff_after_Read
    (api : EmailAPI) (Quote : gostring -> gostring)
    (state m : EmailTemplateResourceModel) (r : Response) (t : EmailTemplate)
    (configured : gostring) :
  Read api Quote state = Returned r ->
  HasError (resp_Diagnostics r) = false ->
  resp_State r = Some m ->
  reply_template (GetEmailTemplate api (parse_id (ValueString (ID state)))) = Some t ->
  normalizeHTML configured = normalizeHTML (et_HTML t) ->
  Modifier.PlanModifyString
    {| Modifier.StateValue := Html m; Modifier.PlanValue := StringValue configured |}
  = Html m.
Proof.
  unfold Read. intros Hrun Hok Hm Ht Heq.
  destruct (reply_err _); [injection Hrun as <-; discriminate Hok|].
  rewrite Ht in Hrun. injection Hrun as <-. cbn [resp_State] in Hm. injection Hm as <-.
  unfold Modifier.PlanModifyString.
  cbn [Html Modifier.StateValue Modifier.PlanValue IsNull orb ValueString].
  change Modifier.normalize with normalizeHTML. cbv zeta.
  rewrite normalizeHTML_fixed, <- Heq.
  replace (gostring_eqb (normalizeHTML configured) (normalizeHTML configured)) with true;
    [reflexivity|].
  symmetry. apply gostring_eqb_eq. reflexivity.
Qed.

Lemma no_diff_after_Read_witness :
  exists m,
    Read (constant_api ok_reply removed_ok) (fun q => q) (stored_model (lit "7") (lit ""))
      = Returned (mkResponse [] (Some m))
    /\ Modifier.PlanModifyString
         {| Modifier.StateValue := Html m;
            Modifier.PlanValue :=
              StringValue (lit "<html>" ++ [CR; LF; TAB] ++ lit "<body>Hi</body>" ++ [LF]
                             ++ lit "</html>" ++ [LF]) |}
       = Html m.
Proof.
  eexists. split; [reflexivity|].
  eapply (no_diff_after_Read (constant_api ok_reply removed_ok) (fun q => q)
           (stored_model (lit "7") (lit "")) _ (mkResponse [] (Some _)) welcome_template);
    try reflexivity.
Defined.

(** ** What the normaliser does to a text *)

Lemma length_squeeze (s : gostring) :
  (length (ReplaceAllString_gap s) <= length s)%nat.
Proof.
  induction s as [|c t Hc IH|t Hnone IH|w r Hw IH] using squeeze_ind.
  - reflexivity.
  - rewrite (squeeze_other c t Hc). cbn [length]. lia.
  - rewrite (squeeze_open t Hnone). cbn [length]. lia.
  - rewrite (squeeze_gap w r Hw). cbn [length]. rewrite length_app. cbn [length]. lia.
Qed.

Lemma length_Join_fields (s cur : gostring) :
  (length (Join (fields_go cur s) [SP]) <= length cur + length s)%nat.
Proof.
  revert cur. induction s as [|c t IH]; intros cur.
  - cbn [fields_go]. destruct cur; cbn [close_field Join length]; lia.
  - cbn [fields_go]. destruct (IsSpace c).
    + specialize (IH []). cbn [length] in *.
      destruct cur as [|x cur]; cbn [close_field]; [lia|].
      cbn [Join]. destruct (fields_go [] t) as [|f fs].
      * cbn [length]. lia.
      * rewrite !length_app. cbn [length] in *. lia.
    + specialize (IH (cur ++ [c])). rewrite length_app in IH. cbn [length] in *. lia.
Qed.

(** X14.  The normaliser never makes a text longer. *)
Theorem normalizeHTML_never_longer (s : gostring) :
  (length (normalizeHTML s) <= length s)%nat.
Proof.
  rewrite normalizeHTML_fields.
  pose proof (length_squeeze (Join (Fields s) [SP])) as H1.
  pose proof (length_Join_fields s []) as H2. unfold Fields in *.
  cbn [length] in H2. lia.
Qed.

Lemma text_app (a b : gostring) : text (a ++ b) = text a ++ text b.
Proof. apply filter_app. Qed.

Lemma text_re_space (w : gostring) : forallb re_space w = true -> text w = [].
Proof.
  induction w as [|c w IH]; intros H; [reflexivity|].
  cbn [forallb] in H. apply andb_prop in H. destruct H as [Hc Hw].
  unfold text. cbn [filter]. rewrite (re_space_IsSpace c Hc). apply IH, Hw.
Qed.

Lemma text_squeeze (s : gostring) : text (ReplaceAllString_gap s) = text s.
Proof.
  induction s as [|c t Hc IH|t Hnone IH|w r Hw IH] using squeeze_ind.
  - reflexivity.
  - rewrite (squeeze_other c t Hc). unfold text in *. cbn [filter]. rewrite IH. reflexivity.
  - rewrite (squeeze_open t Hnone). unfold text in *. cbn [filter]. rewrite IH. reflexivity.
  - rewrite (squeeze_gap w r Hw).
    change (GT :: w ++ LT :: r) with ([GT] ++ w ++ [LT] ++ r).
    change (GT :: LT :: ReplaceAllString_gap r)
      with ([GT] ++ [LT] ++ ReplaceAllString_gap r).
    rewrite !text_app, (text_re_space w Hw), IH. reflexivity.
Qed.

Lemma text_Join_cons (a : gostring) (rest : list gostring) :
  text (Join (a :: rest) [SP]) = text a ++ text (Join rest [SP]).
Proof.
  cbn [Join]. destruct rest as [|b rest].
  - cbn [Join]. rewrite app_nil_r. reflexivity.
  - rewrite !text_app. reflexivity.
Qed.

Lemma text_Join_fields (s cur : gostring) :
  text (Join (fields_go cur s) [SP]) = text cur ++ text s.
Proof.
  revert cur. induction s as [|c t IH]; intros cur.
  - cbn [fields_go]. destruct cur as [|x cur]; [reflexivity|].
    cbn [close_field Join]. rewrite app_nil_r. reflexivity.
  - cbn [fields_go]. destruct (IsSpace c) eqn:Ec.
    + assert (Ht : text (c :: t) = text t) by (unfold text; cbn [filter]; rewrite Ec; reflexivity).
      rewrite Ht. destruct cur as [|x cur]; cbn [close_field].
      * apply (IH []).
      * rewrite text_Join_cons, (IH []). reflexivity.
    + rewrite (IH (cur ++ [c])), text_app, <- app_assoc.
      unfold text. cbn [filter app]. rewrite Ec. reflexivity.
Qed.

(** X15.  The normaliser touches white space only: the runes that are
    not white space come out unchanged and in the same order. *)
Theorem normalizeHTML_keeps_text (s : gostring) :
  text (normalizeHTML s) = text s.
Proof.
  rewrite normalizeHTML_fields, text_squeeze. apply (text_Join_fields s []).
Qed.

Lemma tidy_after_only_SP (s : gostring) (b : bool) (c : rune) :
  tidy_after b s = true -> In c s -> IsSpace c = true -> c = SP.
Proof.
  revert b. induction s as [|d t IH]; intros b H Hin Hc; [contradiction|].
  cbn [tidy_after] in H. destruct Hin as [-> | Hin].
  - destruct (Z.eqb_spec c SP) as [E|_]; [exact E|].
    rewrite Hc in H. discriminate H.
  - destruct (d =? SP); apply andb_prop in H; destruct H as [_ H];
      apply (IH _ H Hin Hc).
Qed.

Lemma tidy_after_not_blank (s : gostring) (b : bool) :
  tidy_after b s = true -> s <> [] -> forallb IsSpace s = false.
Proof.
  revert b. induction s as [|c t IH]; intros b H Hne; [now elim Hne|].
  cbn [tidy_after] in H. cbn [forallb]. destruct (c =? SP).
  - apply andb_prop in H. destruct H as [_ H].
    rewrite (IH true H); [apply andb_false_r|]. intros ->. discriminate H.
  - apply andb_prop in H. destruct H as [Hs _]. apply negb_true_iff in Hs.
    rewrite Hs. reflexivity.
Qed.

Lemma drop_trailing_tidy (s : gostring) (b : bool) :
  tidy_after b s = true -> Reference.drop_trailing s = s.
Proof.
  revert b. induction s as [|c t IH]; intros b H; [reflexivity|].
  cbn [Reference.drop_trailing].
  rewrite (tidy_after_not_blank (c :: t) b H) by discriminate.
  cbn [tidy_after] in H.
  destruct (c =? SP); apply andb_prop in H; destruct H as [_ H];
    rewrite (IH _ H); reflexivity.
Qed.

(** X16.  The normalised text is tidy: nothing but single spaces for
    white space and none at either end, so that trimming it changes
    nothing. *)
Theorem normalizeHTML_is_tidy (s : gostring) :
  tidy (normalizeHTML s) = true
  /\ TrimSpace (normalizeHTML s) = normalizeHTML s
  /\ (forall c, In c (normalizeHTML s) -> IsSpace c = true -> c = SP).
Proof.
  rewrite normalizeHTML_fields.
  pose proof (tidy_squeeze _ (tidy_Join_Fields s)) as Ht.
  destruct (ReplaceAllString_gap (Join (Fields s) [SP])) as [|c t].
  - repeat split. intros c [].
  - unfold tidy in Ht. split; [exact Ht|]. split.
    + unfold TrimSpace. rewrite TrimRightSpace_reference.
      assert (Hs : IsSpace c = false).
      { cbn [tidy_after] in Ht. destruct (Z.eqb_spec c SP) as [->|_]; [discriminate Ht|].
        apply andb_prop in Ht. destruct Ht as [Ht _]. apply negb_true_iff in Ht. exact Ht. }
      cbn [TrimLeftSpace]. rewrite Hs. apply (drop_trailing_tidy _ true Ht).
    + intros d. apply (tidy_after_only_SP _ true d Ht).
Qed.


(** X17.  No white space is left between a [>] and the [<] after it:
    the normalised text never has the shape [.. > white space < ..]. *)
Theorem normalizeHTML_leaves_no_gap (s p w q : gostring) :
  blank w = true -> w <> [] ->
  normalizeHTML s <> p ++ GT :: w ++ LT :: q.
Proof.
  intros Hw Hne Heq.
  pose proof (normalizeHTML_fixed s) as Hfix. rewrite Heq in Hfix.
  rewrite (normalizeHTML_gap p w q Hw) in Hfix.
  assert (Hlen : (length (normalizeHTML (p ++ GT :: LT :: q))
                  <= length (p ++ GT :: LT :: q))%nat).
  { rewrite normalizeHTML_fields.
    pose proof (length_squeeze (Join (Fields (p ++ GT :: LT :: q)) [SP])) as H1.
    pose proof (length_Join_fields (p ++ GT :: LT :: q) []) as H2.
    unfold Fields in *. cbn [length] in H2. lia. }
  rewrite Hfix in Hlen. rewrite !length_app in Hlen. cbn [length] in Hlen.
  rewrite length_app in Hlen. cbn [length] in Hlen.
  destruct w as [|c w]; [now elim Hne|]. cbn [length] in Hlen. lia.
Qed.

Lemma normalizeHTML_leaves_no_gap_witness :
  normalizeHTML (lit "<a> <b>") <> lit "<a> <b>".
Proof.
  apply (normalizeHTML_leaves_no_gap (lit "<a> <b>") (lit "<a") [SP] (lit "b>"));
    [reflexivity | discriminate].
Defined.

Lemma text_nil_blank (s : gostring) : text s = [] -> blank s = true.
Proof.
  induction s as [|c t IH]; intros H; [reflexivity|].
  unfold text in H. cbn [filter] in H. cbn [blank forallb].
  destruct (IsSpace c); [apply IH, H | discriminate H].
Qed.

(** X18.  A text normalises to the empty text exactly when it is empty
    or made of white space only. *)
Theorem normalizeHTML_empty_iff_blank (s : gostring) :
  normalizeHTML s = [] <-> blank s = true.
Proof.
  split; intros H.
  - apply text_nil_blank.
    pose proof (text_Join_fields s []) as Ht.
    change (text [] ++ text s) with (text s) in Ht.
    rewrite <- Ht, <- text_squeeze.
    change (fields_go [] s) with (Fields s).
    rewrite <- normalizeHTML_fields, H. reflexivity.
  - rewrite normalizeHTML_fields. unfold Fields.
    rewrite (fields_go_blank s [] H). reflexivity.
Qed.

(** ** The normaliser decides exactly the insignificant differences *)

Lemma re_space_blank (w : gostring) : forallb re_space w = true -> blank w = true.
Proof.
  induction w as [|c w IH]; intros H; [reflexivity|].
  cbn [forallb] in H. apply andb_prop in H. destruct H as [Hc Hw].
  cbn [blank forallb]. rewrite (re_space_IsSpace c Hc). apply IH, Hw.
Qed.

(** Closing the gaps is a chain of gap differences. *)
Lemma insignificant_squeeze (x : gostring) :
  forall p, insignificant (p ++ x) (p ++ ReplaceAllString_gap x).
Proof.
  induction x as [|c t Hc IH|t Hnone IH|w r Hw IH] using squeeze_ind; intros p.
  - apply rst_refl.
  - rewrite (squeeze_other c t Hc).
    specialize (IH (p ++ [c])). rewrite <- !app_assoc in IH. exact IH.
  - rewrite (squeeze_open t Hnone).
    specialize (IH (p ++ [GT])). rewrite <- !app_assoc in IH. exact IH.
  - rewrite (squeeze_gap w r Hw).
    apply rst_trans with (y := p ++ GT :: [] ++ LT :: r).
    + apply rst_step. apply differ_gap; [apply re_space_blank, Hw | reflexivity].
    + specialize (IH (p ++ [GT; LT])). rewrite <- !app_assoc in IH. exact IH.
Qed.

Lemma same_runs_prefix (cur x y : gostring) :
  solid cur = true -> same_runs x y -> same_runs (cur ++ x) (cur ++ y).
Proof.
  induction cur as [|c cur IH]; intros Hs H; [exact H|].
  cbn [solid forallb] in Hs. apply andb_prop in Hs. destruct Hs as [Hc Hs].
  apply negb_true_iff in Hc. cbn [app]. apply same_rune; [exact Hc | apply IH; assumption].
Qed.

Lemma same_runs_prefix_end (cur x : gostring) :
  solid cur = true -> blank x = true -> same_runs (cur ++ x) cur.
Proof.
  intros Hs Hx. pose proof (same_runs_prefix cur x [] Hs (same_end x [] Hx eq_refl)) as H.
  rewrite app_nil_r in H. exact H.
Qed.

(** Joining the fields of a text differs from it in white space runs. *)
Lemma same_runs_Join_fields (s : gostring) :
  (forall cur, cur <> [] -> solid cur = true ->
     same_runs (cur ++ s) (Join (fields_go cur s) [SP]))
  /\ ((blank s = true /\ fields_go [] s = [])
      \/ exists w t, s = w ++ t /\ blank w = true
           /\ same_runs t (Join (fields_go [] s) [SP])).
Proof.
  induction s as [|c t [IH1 IH2]].
  - split.
    + intros cur Hne Hs. cbn [fields_go]. rewrite close_field_cons by exact Hne.
      cbn [Join]. apply same_runs_prefix_end; [exact Hs | reflexivity].
    + left. split; reflexivity.
  - destruct (IsSpace c) eqn:Ec.
    + split.
      * intros cur Hne Hs. cbn [fields_go]. rewrite Ec.
        rewrite close_field_cons by exact Hne.
        destruct IH2 as [[Hb Hf] | [w [t' [-> [Hw Hr]]]]].
        -- rewrite Hf. cbn [Join]. apply same_runs_prefix_end; [exact Hs|].
           cbn [blank forallb]. rewrite Ec. exact Hb.
        -- cbn [Join]. destruct (fields_go [] (w ++ t')) as [|f fs] eqn:Ef.
           ++ cbn [Join] in Hr. apply same_runs_prefix_end; [exact Hs|].
              assert (Ht : blank t' = true).
              { inversion Hr as [w1 w2 H1 H2 | | w1 w2 a0 b0 N1 N2 B1 B2 Hr' E1 E2];
                  [exact H1|].
                exfalso. destruct w2; [now elim N2 | discriminate E2]. }
              unfold blank in *. cbn [forallb]. rewrite Ec, forallb_app, Hw, Ht.
              reflexivity.
           ++ apply same_runs_prefix; [exact Hs|].
              apply (same_run (c :: w) [SP] t' (Join (f :: fs) [SP]));
                try discriminate; [|reflexivity | exact Hr].
              cbn [blank forallb]. rewrite Ec. exact Hw.
      * cbn [fields_go]. rewrite Ec. cbn [close_field].
        destruct IH2 as [[Hb Hf] | [w [t' [-> [Hw Hr]]]]].
        -- left. split; [cbn [blank forallb]; rewrite Ec; exact Hb | exact Hf].
        -- right. exists (c :: w), t'. split; [reflexivity|].
           split; [cbn [blank forallb]; rewrite Ec; exact Hw | exact Hr].
    + split.
      * intros cur Hne Hs. cbn [fields_go]. rewrite Ec.
        specialize (IH1 (cur ++ [c])). rewrite <- app_assoc in IH1. apply IH1.
        -- destruct cur; discriminate.
        -- rewrite solid_app, Hs. cbn. rewrite Ec. reflexivity.
      * right. exists [], (c :: t). split; [reflexivity|]. split; [reflexivity|].
        cbn [fields_go]. rewrite Ec. apply (IH1 [c]); [discriminate|].
        cbn. rewrite Ec. reflexivity.
Qed.

(** A text and its normal form differ insignificantly. *)
Lemma insignificant_normalizeHTML (a : gostring) : insignificant a (normalizeHTML a).
Proof.
  rewrite normalizeHTML_fields.
  apply rst_trans with (y := Join (Fields a) [SP]);
    [|apply (insignificant_squeeze _ [])].
  apply rst_step. unfold Fields.
  destruct (proj2 (same_runs_Join_fields a)) as [[Hb Hf] | [w [t [-> [Hw Hr]]]]].
  - rewrite Hf. cbn [Join].
    rewrite <- (app_nil_r a). apply (differ_runs a [] [] [] Hb eq_refl).
    apply same_end; reflexivity.
  - apply (differ_runs w [] t _ Hw eq_refl Hr).
Qed.

(** X19.  Two texts with the same normal form differ only
    insignificantly: the normaliser identifies no more than white space
    runs, white space in gaps between [>] and [<], and line endings. *)
Theorem same_normal_form_insignificant (a b : gostring) :
  normalizeHTML a = normalizeHTML b -> insignificant a b.
Proof.
  intros H. apply rst_trans with (y := normalizeHTML a).
  - apply insignificant_normalizeHTML.
  - rewrite H. apply rst_sym, insignificant_normalizeHTML.
Qed.

Lemma same_normal_form_insignificant_witness :
  insignificant (lit " <p> a</p> <b> ") (lit "<p>" ++ [CR; LF] ++ lit "a</p><b>").
Proof.
  apply same_normal_form_insignificant. vm_compute. reflexivity.
Defined.

(** ** Provider and resource configuration *)

Lemma Configure_unknown
    (GetAll : gostring -> gostring -> VerifyReply) (env : Environ)
    (config : pocInfobipEmailsProviderModel) :
  IsUnknown (BaseUrl config) = true \/ IsUnknown (ApiKey config) = true ->
  exists d, Configure GetAll env config = failed d /\ HasError d = true
    /\ forall GetAll', Configure GetAll' env config = failed d.
Proof.
  intros H. unfold Configure.
  destruct (IsUnknown (BaseUrl config)), (IsUnknown (ApiKey config));
    try (eexists; split; [reflexivity | split; [reflexivity | intros; reflexivity]]).
  destruct H; discriminate.
Qed.

(** X20.  The provider hands a client to the resources exactly when no
    value is unknown, both resolved values are non-empty and the
    verification call returned no error; the client then carries the two
    resolved values, and the data sources get the same one. *)
Theorem Configure_hands_client_iff
    (GetAll : gostring -> gostring -> VerifyReply) (env : Environ)
    (config : pocInfobipEmailsProviderModel) (pc : providerClient) :
  (ResourceData (Configure GetAll env config) = Some pc <->
   IsUnknown (BaseUrl config) = false /\ IsUnknown (ApiKey config) = false
   /\ resolve_base_url env config <> [] /\ resolve_api_key env config <> []
   /\ verify_err (GetAll (resolve_base_url env config) (resolve_api_key env config)) = None
   /\ pc = mkProviderClient (resolve_base_url env config) (resolve_api_key env config))
  /\ DataSourceData (Configure GetAll env config) = ResourceData (Configure GetAll env config).
Proof.
  destruct (IsUnknown (BaseUrl config)) eqn:Ub.
  { destruct (Configure_unknown GetAll env config (or_introl Ub)) as [d [-> _]].
    split; [|reflexivity]. split; [discriminate | intros [H _]; discriminate H]. }
  destruct (IsUnknown (ApiKey config)) eqn:Uk.
  { destruct (Configure_unknown GetAll env config (or_intror Uk)) as [d [-> _]].
    split; [|reflexivity]. split; [discriminate | intros [_ [H _]]; discriminate H]. }
  rewrite (Configure_known GetAll env config Ub Uk). cbv zeta.
  destruct (gostring_eqb (resolve_base_url env config) []) eqn:Eb.
  { apply gostring_eqb_eq in Eb.
    destruct (gostring_eqb (resolve_api_key env config) []); cbn;
      (split; [|reflexivity]); (split; [discriminate | intros [_ [_ [H _]]]; now elim H]). }
  destruct (gostring_eqb (resolve_api_key env config) []) eqn:Ek.
  { apply gostring_eqb_eq in Ek. cbn.
    split; [|reflexivity]. split; [discriminate | intros [_ [_ [_ [H _]]]]; now elim H]. }
  apply gostring_eqb_neq in Eb. apply gostring_eqb_neq in Ek. cbn [HasError].
  destruct (verify_err _) as [err|]; cbn [failed ResourceData DataSourceData].
  - split; [|reflexivity].
    split; [discriminate | intros [_ [_ [_ [_ [H _]]]]]; discriminate H].
  - split; [|reflexivity]. split.
    + intros H. injection H as <-. repeat split; assumption.
    + intros [_ [_ [_ [_ [_ ->]]]]]. reflexivity.
Qed.

(** X21.  The configuration ends without an error exactly when,
    moreover, the verification reply has results: a reply without results
    adds an error although the client is handed on. *)
Theorem Configure_error_free_iff
    (GetAll : gostring -> gostring -> VerifyReply) (env : Environ)
    (config : pocInfobipEmailsProviderModel) :
  HasError (cfg_Diagnostics (Configure GetAll env config)) = false <->
  IsUnknown (BaseUrl config) = false /\ IsUnknown (ApiKey config) = false
  /\ resolve_base_url env config <> [] /\ resolve_api_key env config <> []
  /\ verify_err (GetAll (resolve_base_url env config) (resolve_api_key env config)) = None
  /\ verify_has_results
       (GetAll (resolve_base_url env config) (resolve_api_key env config)) = true.
Proof.
  destruct (IsUnknown (BaseUrl config)) eqn:Ub.
  { destruct (Configure_unknown GetAll env config (or_introl Ub)) as [d [-> [Hd _]]].
    cbn [failed cfg_Diagnostics]. rewrite Hd.
    split; [discriminate | intros [H _]; discriminate H]. }
  destruct (IsUnknown (ApiKey config)) eqn:Uk.
  { destruct (Configure_unknown GetAll env config (or_intror Uk)) as [d [-> [Hd _]]].
    cbn [failed cfg_Diagnostics]. rewrite Hd.
    split; [discriminate | intros [_ [H _]]; discriminate H]. }
  rewrite (Configure_known GetAll env config Ub Uk). cbv zeta.
  destruct (gostring_eqb (resolve_base_url env config) []) eqn:Eb.
  { apply gostring_eqb_eq in Eb.
    destruct (gostring_eqb (resolve_api_key env config) []); cbn;
      (split; [discriminate | intros [_ [_ [H _]]]; now elim H]). }
  destruct (gostring_eqb (resolve_api_key env config) []) eqn:Ek.
  { apply gostring_eqb_eq in Ek. cbn.
    split; [discriminate | intros [_ [_ [_ [H _]]]]; now elim H]. }
  apply gostring_eqb_neq in Eb. apply gostring_eqb_neq in Ek. cbn [HasError].
  destruct (verify_err _) as [err|]; cbn [failed cfg_Diagnostics].
  - split; [discriminate | intros [_ [_ [_ [_ [H _]]]]]; discriminate H].
  - destruct (verify_has_results _); cbn.
    + split; [intros _; repeat split; assumption | reflexivity].
    + split; [discriminate | intros [_ [_ [_ [_ [_ H]]]]]; discriminate H].
Qed.

(** X22.  With an unknown value or an empty resolved value the
    verification call plays no part: the outcome is the same whatever
    the service would answer. *)
Theorem Configure_skips_verification
    (G1 G2 : gostring -> gostring -> VerifyReply) (env : Environ)
    (config : pocInfobipEmailsProviderModel) :
  IsUnknown (BaseUrl config) = true \/ IsUnknown (ApiKey config) = true
  \/ resolve_base_url env config = [] \/ resolve_api_key env config = [] ->
  Configure G1 env config = Configure G2 env config.
Proof.
  intros H.
  destruct (IsUnknown (BaseUrl config)) eqn:Ub.
  { destruct (Configure_unknown G1 env config (or_introl Ub)) as [d [-> Hd]].
    symmetry. apply Hd. }
  destruct (IsUnknown (ApiKey config)) eqn:Uk.
  { destruct (Configure_unknown G1 env config (or_intror Uk)) as [d [-> Hd]].
    symmetry. apply Hd. }
  rewrite !(Configure_known _ env config Ub Uk). cbv zeta.
  destruct H as [H | [H | [H | H]]]; try discriminate H; rewrite H.
  - change (gostring_eqb [] []) with true. cbv iota.
    destruct (gostring_eqb (resolve_api_key env config) []); reflexivity.
  - change (gostring_eqb [] []) with true. cbv iota.
    rewrite HasError_app_r. reflexivity.
Qed.

Lemma Configure_skips_verification_witness :
  Configure verify_ok full_environ empty_url_config
  = Configure (fun _ _ => mkVerify (Some (lit "401 Unauthorized")) false [])
      full_environ empty_url_config.
Proof.
  apply Configure_skips_verification. right. right. left. reflexivity.
Defined.

(** X23.  From the provider to the resource: the client the provider
    hands on configures a fresh resource without a diagnostic, and the
    key the resource then holds is the resolved API key, never empty. *)
Theorem ResourceConfigure_after_provider
    (GetAll : gostring -> gostring -> VerifyReply) (env : Environ)
    (config : pocInfobipEmailsProviderModel) (pc : providerClient) :
  ResourceData (Configure GetAll env config) = Some pc ->
  ResourceConfigure NewEmailTemplateResource (ClientData (Some pc))
    = Returned (mkResource (Some (resolve_base_url env config))
                  (resolve_api_key env config), [])
  /\ resolve_api_key env config <> [].
Proof.
  intros H. apply Configure_client in H. destruct H as [Hh [Hk [_ Hne]]].
  split; [|exact Hne]. cbn [ResourceConfigure]. rewrite Hh, Hk. reflexivity.
Qed.

Lemma ResourceConfigure_after_provider_witness :
  exists pc,
    ResourceData (Configure verify_ok full_environ (mkConfig StringNull (StringValue (lit "k"))))
      = Some pc
    /\ ResourceConfigure NewEmailTemplateResource (ClientData (Some pc))
       = Returned (mkResource (Some (lit "https://example.api.infobip.com")) (lit "k"), []).
Proof.
  eexists. split; [reflexivity|].
  apply (ResourceConfigure_after_provider verify_ok full_environ
           (mkConfig StringNull (StringValue (lit "k")))).
  reflexivity.
Defined.

Lemma Configure_hands_client_iff_witness :
  ResourceData (Configure verify_ok full_environ (mkConfig StringNull StringNull))
  = Some (mkProviderClient (lit "https://example.api.infobip.com") (lit "secret")).
Proof.
  apply (proj1 (Configure_hands_client_iff verify_ok full_environ
                  (mkConfig StringNull StringNull) _)).
  repeat split; discriminate.
Defined.

Lemma Configure_error_free_iff_witness :
  HasError (cfg_Diagnostics
              (Configure (fun _ _ => mkVerify None false (lit "<nil>")) full_environ
                 (mkConfig StringNull StringNull))) <> false.
Proof.
  intros H.
  apply (Configure_error_free_iff (fun _ _ => mkVerify None false (lit "<nil>"))
           full_environ (mkConfig StringNull StringNull)) in H.
  destruct H as [_ [_ [_ [_ [_ H]]]]]. discriminate H.
Defined.

Lemma normalizeHTML_empty_iff_blank_witness :
  normalizeHTML [SP; CR; LF; TAB; 160] = [].
Proof.
  apply (proj2 (normalizeHTML_empty_iff_blank [SP; CR; LF; TAB; 160])). reflexivity.
Defined.

Lemma normalizeHTML_is_tidy_witness :
  TrimSpace (normalizeHTML (lit " <p>a" ++ [TAB; 11] ++ lit "b</p> "))
  = normalizeHTML (lit " <p>a" ++ [TAB; 11] ++ lit "b</p> ")
  /\ nth 4 (normalizeHTML (lit " <p>a" ++ [TAB; 11] ++ lit "b</p> ")) 0 = SP.
Proof.
  destruct (normalizeHTML_is_tidy (lit " <p>a" ++ [TAB; 11] ++ lit "b</p> "))
    as [_ [Htrim Hsp]].
  split; [exact Htrim|].
  apply Hsp; [|reflexivity].
  apply nth_In. vm_compute. lia.
Defined.
